(** * Client-side scripting layer of the portfolio site: blog listing,
    localization store and theme store, embedded from the JavaScript sources.

    - [Js]: the pieces of the host language the sources rely on (abrupt
      completion, string search, [Array.prototype.slice] and [sort], the
      members every plain object inherits).
    - [Blog]: class [BlogManager] of the blog module.
    - [I18n]: class [I18n] of [config.js].
    - [JsNumber]: IEEE-754 numbers with [%], [Math.round], [parseInt] and
      [Number.prototype.toString(16)].
    - [Theme]: class [ThemeManager] of [theme.js].
    - [BlogOrder], [BlogSidebar]: the order of the listing, the category
      list and the tag cloud of the blog module.
    - [I18nSweep], [ThemeEvents]: what a language change leaves in the
      document, and the events of the theme panel.
    - [Utils], [MobileMenu], [Navigation]: the utilities and the page
      chrome of the main module.
    - [ResearchTabs], [ResearchAbstract]: tabs and abstract toggles of the
      research module.
    - [Config]: the social links of class [ConfigManager].

    Definitions come first; the statements about them follow. *)

From Stdlib Require Import ZArith List String Ascii Bool Lia Floats.
From stdpp Require Import base option gmap strings.
Import ListNotations.

Local Open Scope string_scope.
Local Open Scope list_scope.
Local Open Scope Z_scope.

(* ===================================================================== *)
(** * Host language *)
(* ===================================================================== *)

Module Js.

(** A JavaScript call either returns a value or throws. *)
Inductive completion (A : Type) : Type :=
| Return (a : A)
| Throw (error : string).
Arguments Return {A} a.
Arguments Throw {A} error.

#[global] Instance completion_ret : MRet completion := fun _ a => Return a.
#[global] Instance completion_bind : MBind completion := fun _ _ f m =>
  match m with
  | Return a => f a
  | Throw e => Throw e
  end.

Definition TypeError : string := "TypeError".

(** [Array.prototype.filter] with a callback that may throw: the callback
    runs on the elements in order and the first throw aborts the call. *)
Fixpoint filterM {A} (p : A -> completion bool) (l : list A)
  : completion (list A) :=
  match l with
  | [] => Return []
  | x :: l' =>
      b ← p x;
      r ← filterM p l';
      Return (if b : bool then x :: r else r)
  end.

(** [String.prototype.includes]: [sub] occurs somewhere in [s]. *)
Fixpoint includes (s sub : string) : bool :=
  String.prefix sub s ||
  match s with
  | EmptyString => false
  | String _ s' => includes s' sub
  end.

(** Lower-casing of the letters A to Z: what [String.prototype.toLowerCase]
    does on ASCII text. The blog model takes the host's full function as a
    parameter; this one instantiates it on sample data. *)
Definition asciiLowerChar (c : ascii) : ascii :=
  let n := nat_of_ascii c in
  if ((65 <=? n) && (n <=? 90))%nat then ascii_of_nat (n + 32) else c.

Fixpoint asciiLower (s : string) : string :=
  match s with
  | EmptyString => EmptyString
  | String c s' => String (asciiLowerChar c) (asciiLower s')
  end.

(** [Array.prototype.includes] on an array of strings. *)
Definition array_includes (l : list string) (x : string) : bool :=
  existsb (String.eqb x) l.

(** [Array.prototype.sort] with a comparator into the numbers. The sort is
    stable: an element goes in front of the first one it does not compare
    greater than. *)
Fixpoint insert_sorted {A} (cmp : A -> A -> Z) (x : A) (l : list A) : list A :=
  match l with
  | [] => [x]
  | y :: l' => if cmp x y <=? 0 then x :: l else y :: insert_sorted cmp x l'
  end.

Definition sort {A} (cmp : A -> A -> Z) (l : list A) : list A :=
  fold_right (insert_sorted cmp) [] l.

(** [Array.prototype.slice(start, end)] for integer arguments: a negative
    index counts from the end, and both are clamped to the array. *)
Definition relative_index (len i : Z) : Z :=
  if i <? 0 then Z.max (len + i) 0 else Z.min i len.

Definition slice {A} (l : list A) (start end_ : Z) : list A :=
  let len := Z.of_nat (length l) in
  let k := relative_index len start in
  let final := relative_index len end_ in
  firstn (Z.to_nat (final - k)) (skipn (Z.to_nat k) l).

(** The function-valued members of [Object.prototype]. *)
Definition prototypeFunctions : list string :=
  [ "constructor"; "hasOwnProperty"; "isPrototypeOf"; "propertyIsEnumerable";
    "toLocaleString"; "toString"; "valueOf";
    "__defineGetter__"; "__defineSetter__";
    "__lookupGetter__"; "__lookupSetter__" ].

(** Names a plain object answers for without having them as entries. *)
Definition inherited (k : string) : bool :=
  String.eqb k "__proto__" || existsb (String.eqb k) prototypeFunctions.

(** [Math.ceil(n / d)] for a length [n] and a positive integer [d]. *)
Definition ceil_div (n d : Z) : Z := (n + d - 1) / d.

End Js.

Import Js.

(* ===================================================================== *)
(** * Blog module *)
(* ===================================================================== *)

Module Blog.

(** A per-language text: the object [{ en: ..., pt: ... }] of the data file,
    as its own entries. *)
Definition LangText := list (string * string).

Fixpoint entry (o : LangText) (k : string) : option string :=
  match o with
  | [] => None
  | (k', v) :: o' => if String.eqb k k' then Some v else entry o' k
  end.

(** [date] is the time value of [new Date(post.date)], in milliseconds. *)
Record Post := {
  post_id : string;
  title : LangText;
  excerpt : LangText;
  category : string;
  tags : list string;
  date : Z;
  readingTime : Z;
  published : bool;
  image : option string
}.

(** The document [blog-posts.json]. *)
Record Dataset := {
  data_posts : list Post;
  data_categories : list (string * list (string * string));
  data_tags : list string
}.

(** The fields of a [BlogManager]. [postsPerPage] is set to 6 by the
    constructor and never assigned again. *)
Record BlogManager := {
  posts : list Post;
  categories : list (string * list (string * string));
  tagList : list string;
  currentPage : Z;
  currentCategory : string;
  currentTag : option string;
  searchQuery : string
}.

Definition postsPerPage : Z := 6.

Definition constructor : BlogManager := {|
  posts := [];
  categories := [];
  tagList := [];
  currentPage := 1;
  currentCategory := "all";
  currentTag := None;
  searchQuery := ""
|}.

Definition set_currentPage (p : Z) (m : BlogManager) : BlogManager :=
  {| posts := posts m; categories := categories m; tagList := tagList m;
     currentPage := p; currentCategory := currentCategory m;
     currentTag := currentTag m; searchQuery := searchQuery m |}.

Definition set_currentCategory (c : string) (m : BlogManager) : BlogManager :=
  {| posts := posts m; categories := categories m; tagList := tagList m;
     currentPage := currentPage m; currentCategory := c;
     currentTag := currentTag m; searchQuery := searchQuery m |}.

Definition set_currentTag (t : option string) (m : BlogManager) : BlogManager :=
  {| posts := posts m; categories := categories m; tagList := tagList m;
     currentPage := currentPage m; currentCategory := currentCategory m;
     currentTag := t; searchQuery := searchQuery m |}.

Definition set_searchQuery (q : string) (m : BlogManager) : BlogManager :=
  {| posts := posts m; categories := categories m; tagList := tagList m;
     currentPage := currentPage m; currentCategory := currentCategory m;
     currentTag := currentTag m; searchQuery := q |}.

(** The three assignments of [init] after a successful fetch. *)
Definition load (data : Dataset) (m : BlogManager) : BlogManager :=
  {| posts := List.filter published (data_posts data);
     categories := data_categories data;
     tagList := data_tags data;
     currentPage := currentPage m; currentCategory := currentCategory m;
     currentTag := currentTag m; searchQuery := searchQuery m |}.

(** [getCurrentLang]: [window.i18n?.getLanguage() || 'en']. The argument is
    the language of the localization store, [None] when there is no store. *)
Definition getCurrentLang (i18n : option string) : string :=
  match i18n with
  | Some l => if String.eqb l "" then "en" else l
  | None => "en"
  end.

Section Host.

(** [String.prototype.toLowerCase] of the host. *)
Variable toLowerCase : string -> string.

(** [post.title[lang].toLowerCase()]: a string entry is lower-cased; with no
    such entry the member access yields a value without a callable
    [toLowerCase] and the call throws. *)
Definition lowered (o : LangText) (lang : string) : completion string :=
  match entry o lang with
  | Some s => Return (toLowerCase s)
  | None => Throw TypeError
  end.

Definition matchesQuery (query lang : string) (post : Post) : completion bool :=
  t ← lowered (title post) lang;
  e ← lowered (excerpt post) lang;
  Return (includes t query || includes e query).

Definition byCategory (m : BlogManager) (l : list Post) : list Post :=
  if negb (String.eqb (currentCategory m) "all")
  then List.filter (fun post => String.eqb (category post) (currentCategory m)) l
  else l.

(** [if (this.currentTag)]: [null] and the empty string select nothing. *)
Definition activeTag (m : BlogManager) : option string :=
  match currentTag m with
  | Some t => if String.eqb t "" then None else Some t
  | None => None
  end.

Definition byTag (m : BlogManager) (l : list Post) : list Post :=
  match activeTag m with
  | Some t => List.filter (fun post => array_includes (tags post) t) l
  | None => l
  end.

Definition bySearch (i18n : option string) (m : BlogManager) (l : list Post)
  : completion (list Post) :=
  if negb (String.eqb (searchQuery m) "")
  then filterM (matchesQuery (toLowerCase (searchQuery m)) (getCurrentLang i18n)) l
  else Return l.

Definition newestFirst (a b : Post) : Z := date b - date a.

Definition getFilteredPosts (i18n : option string) (m : BlogManager)
  : completion (list Post) :=
  filtered ← bySearch i18n m (byTag m (byCategory m (posts m)));
  Return (sort newestFirst filtered).

Definition getPaginatedPosts (i18n : option string) (m : BlogManager)
  : completion (list Post) :=
  filtered ← getFilteredPosts i18n m;
  let start := (currentPage m - 1) * postsPerPage in
  let end_ := start + postsPerPage in
  Return (slice filtered start end_).

Definition getTotalPages (i18n : option string) (m : BlogManager)
  : completion Z :=
  filtered ← getFilteredPosts i18n m;
  Return (ceil_div (Z.of_nat (length filtered)) postsPerPage).

(** ** Rendering *)

(** A button of the pagination control: its [disabled] attribute and the
    integer written in its [data-page] attribute ([parseInt] reads it back). *)
Record PageBtn := {
  disabled : bool;
  dataPage : Z
}.

(** The post grid shows cards or the empty-state message. *)
Inductive Grid :=
| Cards (lang : string) (shown : list Post)
| EmptyState (message : string).

(** The two regions of the page that depend on the page number. The
    category list and the tag cloud are written by [render] as well; they
    read [posts], [currentCategory] and [currentTag] only and cannot throw. *)
Record BlogDom := {
  grid : Grid;
  pagination : list PageBtn
}.

Definition renderEmpty (i18n : option string) : Grid :=
  EmptyState (if String.eqb (getCurrentLang i18n) "pt"
              then "Nenhum post encontrado" else "No posts found").

Definition renderPosts (i18n : option string) (m : BlogManager)
  : completion Grid :=
  shown ← getPaginatedPosts i18n m;
  Return (match shown with
          | [] => renderEmpty i18n
          | _ => Cards (getCurrentLang i18n) shown
          end).

(** The numbered buttons [from], [from + 1], ... ([count] of them). *)
Fixpoint numbered (from : Z) (count : nat) : list PageBtn :=
  match count with
  | O => []
  | S c => {| disabled := false; dataPage := from |} :: numbered (from + 1) c
  end.

Definition renderPagination (i18n : option string) (m : BlogManager)
  : completion (list PageBtn) :=
  totalPages ← getTotalPages i18n m;
  Return (if totalPages <=? 1 then []
          else {| disabled := currentPage m =? 1;
                  dataPage := currentPage m - 1 |}
               :: numbered 1 (Z.to_nat totalPages)
               ++ [ {| disabled := currentPage m =? totalPages;
                       dataPage := currentPage m + 1 |} ]).

Definition render (i18n : option string) (m : BlogManager)
  : completion BlogDom :=
  g ← renderPosts i18n m;
  p ← renderPagination i18n m;
  Return {| grid := g; pagination := p |}.

(** ** The page: manager, localization store and document *)

(** [listening] records that [setupEventListeners] has run (and that the
    manager subscribed to the localization store, when there is one). *)
Record Page := {
  manager : BlogManager;
  i18n_lang : option string;
  dom : BlogDom;
  listening : bool
}.

(** A handler assigns the fields and calls [render]; when [render] throws,
    the assignments stay and the document keeps its previous content. *)
Definition rerender (st : Page) (m : BlogManager) (i18n : option string) : Page :=
  match render i18n m with
  | Return d =>
      {| manager := m; i18n_lang := i18n; dom := d; listening := listening st |}
  | Throw _ =>
      {| manager := m; i18n_lang := i18n; dom := dom st; listening := listening st |}
  end.

(** [init]: [fetched] is the parsed document, [None] when the fetch or the
    parse failed. The [catch] branch renders the empty state and installs
    no listener. *)
Definition init (fetched : option Dataset) (i18n : option string) : Page :=
  let failed m :=
    {| manager := m; i18n_lang := i18n;
       dom := {| grid := renderEmpty i18n; pagination := [] |};
       listening := false |} in
  match fetched with
  | None => failed constructor
  | Some data =>
      let m := load data constructor in
      match render i18n m with
      | Return d =>
          {| manager := m; i18n_lang := i18n; dom := d; listening := true |}
      | Throw _ => failed m
      end
  end.

(** ** Event handlers of [setupEventListeners] *)

(** The search box fires (after the debounce) with its current value. *)
Definition onSearchInput (value : string) (m : BlogManager) : BlogManager :=
  set_currentPage 1 (set_searchQuery value m).

(** A click on a category link carrying [data-category]. *)
Definition onCategoryClick (c : string) (m : BlogManager) : BlogManager :=
  set_currentPage 1 (set_currentTag None (set_currentCategory c m)).

(** A click on an element of class [tag]; an empty or absent [data-tag]
    is ignored, a click on the selected tag clears the selection. *)
Definition onTagClick (t : string) (m : BlogManager) : option BlogManager :=
  if String.eqb t "" then None
  else
    let selected :=
      match currentTag m with
      | Some t' => String.eqb t' t
      | None => false
      end in
    Some (set_currentPage 1 (set_currentTag (if selected then None else Some t) m)).

(** A click on a button of the pagination control. *)
Definition onPaginationClick (btn : PageBtn) (m : BlogManager)
  : option BlogManager :=
  if disabled btn then None else Some (set_currentPage (dataPage btn) m).

(** The codes [setLanguage] of the localization store accepts. *)
Definition recognized (code : string) : bool :=
  String.eqb code "en" || String.eqb code "pt".

Inductive Event :=
| SearchInput (value : string)
| CategoryClick (c : string)
| TagClick (t : string)
| PaginationClick (index : nat)
| LanguageChange (code : string).

(** One event, run to completion. [PaginationClick i] is a click on the
    [i]-th button the pagination control currently holds. A language change
    reaches the manager through its subscription. *)
Definition step (st : Page) (ev : Event) : Page :=
  match ev with
  | LanguageChange code =>
      match i18n_lang st with
      | Some _ =>
          if recognized code then
            if listening st then rerender st (manager st) (Some code)
            else {| manager := manager st; i18n_lang := Some code;
                    dom := dom st; listening := false |}
          else st
      | None => st
      end
  | _ =>
      if negb (listening st) then st
      else
        match ev with
        | SearchInput value =>
            rerender st (onSearchInput value (manager st)) (i18n_lang st)
        | CategoryClick c =>
            rerender st (onCategoryClick c (manager st)) (i18n_lang st)
        | TagClick t =>
            match onTagClick t (manager st) with
            | Some m => rerender st m (i18n_lang st)
            | None => st
            end
        | PaginationClick i =>
            match nth_error (pagination (dom st)) i with
            | Some btn =>
                match onPaginationClick btn (manager st) with
                | Some m => rerender st m (i18n_lang st)
                | None => st
                end
            | None => st
            end
        | LanguageChange _ => st
        end
  end.

Definition run (st : Page) (evs : list Event) : Page := fold_left step evs st.

(** Language changes of a run that arrive while a search query is set. *)
Fixpoint languageChangesWhileSearching (st : Page) (evs : list Event) : bool :=
  match evs with
  | [] => false
  | ev :: evs' =>
      (match ev with
       | LanguageChange _ => negb (String.eqb (searchQuery (manager st)) "")
       | _ => false
       end) || languageChangesWhileSearching (step st ev) evs'
  end.

(** The pages of the listing, first to last: [getPaginatedPosts] with
    [currentPage] set to 1, 2, ..., [getTotalPages()]. *)
Fixpoint pagesFrom (i18n : option string) (m : BlogManager) (from : Z) (count : nat)
  : completion (list (list Post)) :=
  match count with
  | O => Return []
  | S c =>
      p ← getPaginatedPosts i18n (set_currentPage from m);
      ps ← pagesFrom i18n m (from + 1) c;
      Return (p :: ps)
  end.

Definition allPages (i18n : option string) (m : BlogManager)
  : completion (list (list Post)) :=
  totalPages ← getTotalPages i18n m;
  pagesFrom i18n m 1 (Z.to_nat totalPages).

(** ** Invariants of the page *)

(** Every button that can be clicked leads to a page number from 1 on. *)
Definition enabledFrom1 (btns : list PageBtn) : Prop :=
  forall b, In b btns -> disabled b = false -> 1 <= dataPage b.

Definition lowerInv (st : Page) : Prop :=
  1 <= currentPage (manager st) /\ enabledFrom1 (pagination (dom st)).

(** When the filtered list exists, the page number is at most the number
    of pages (1 for an empty list) and the pagination control on screen is
    the one [renderPagination] writes for the current state. *)
Definition upperInv (st : Page) : Prop :=
  forall filtered,
    getFilteredPosts (i18n_lang st) (manager st) = Return filtered ->
    currentPage (manager st)
      <= Z.max 1 (ceil_div (Z.of_nat (length filtered)) postsPerPage)
    /\ renderPagination (i18n_lang st) (manager st)
       = Return (pagination (dom st)).

End Host.

(** ** Sample data *)

Definition samplePost (n : string) (pt_title cat : string) (tgs : list string)
    (day : Z) (pub : bool) : Post :=
  {| post_id := n;
     title := [("en", "Field Note " +:+ n); ("pt", pt_title)];
     excerpt := [("en", "Summary"); ("pt", "Resumo")];
     category := cat;
     tags := tgs;
     date := day * 86400000;
     readingTime := 5;
     published := pub;
     image := None |}.

Definition sampleData : Dataset :=
  {| data_posts :=
       [ samplePost "1" "Notebook 1" "research" ["rocq"; "proofs"] 1 true;
         samplePost "2" "Notebook 2" "research" ["rocq"] 2 true;
         samplePost "3" "Notebook 3" "teaching" ["rocq"] 3 true;
         samplePost "4" "Apontamento 4" "teaching" ["web"] 4 true;
         samplePost "5" "Apontamento 5" "research" ["web"] 5 true;
         samplePost "6" "Apontamento 6" "research" [] 6 true;
         samplePost "7" "Apontamento 7" "teaching" ["proofs"] 7 true;
         samplePost "8" "Rascunho" "research" ["rocq"] 8 false ];
     data_categories :=
       [ ("en", [("research", "Research"); ("teaching", "Teaching")]);
         ("pt", [("research", "Pesquisa"); ("teaching", "Ensino")]) ];
     data_tags := ["rocq"; "proofs"; "web"] |}.

(** The page after a successful load, English selected. *)
Definition samplePage : Page := init asciiLower (Some sampleData) (Some "en").


End Blog.

(* ===================================================================== *)
(** * Localization store *)
(* ===================================================================== *)

Module I18n.

(** The translation table of [translations.json]: objects nested in
    objects, with display strings at the leaves. An object is the list of
    its own entries. *)
Inductive Table :=
| Text (s : string)
| Entries (o : list (string * Table)).

(** The values [translate] can meet. Objects of the table are plain
    objects, so besides their own entries they answer for the members of
    [Object.prototype]. *)
Inductive Value :=
| VUndefined
| VNull
| VString (s : string)
| VObject (o : list (string * Table))
| VObjectPrototype
| VBuiltin (name : string).

Definition ofTable (t : Table) : Value :=
  match t with
  | Text s => VString s
  | Entries o => VObject o
  end.

Fixpoint own (o : list (string * Table)) (k : string) : option Table :=
  match o with
  | [] => None
  | (k', t) :: o' => if String.eqb k k' then Some t else own o' k
  end.

(** Member access [value[k]]. It throws on [undefined] and [null]. Members
    of strings and of functions are outside this model; reading one counts
    as a failure, so that nothing proved here relies on it. *)
Definition OutsideModel : string := "outside the model".

Definition getMember (value : Value) (k : string) : completion Value :=
  match value with
  | VUndefined | VNull => Throw TypeError
  | VString _ | VBuiltin _ => Throw OutsideModel
  | VObject o =>
      Return (match own o k with
              | Some t => ofTable t
              | None =>
                  if String.eqb k "__proto__" then VObjectPrototype
                  else if inherited k then VBuiltin k
                  else VUndefined
              end)
  | VObjectPrototype =>
      Return (if String.eqb k "__proto__" then VNull
              else if inherited k then VBuiltin k
              else VUndefined)
  end.

(** Truthiness, and [typeof value === 'object']. *)
Definition truthy (value : Value) : bool :=
  match value with
  | VUndefined | VNull => false
  | VString s => negb (String.eqb s "")
  | VObject _ | VObjectPrototype | VBuiltin _ => true
  end.

Definition typeofObject (value : Value) : bool :=
  match value with
  | VNull | VObject _ | VObjectPrototype => true
  | VUndefined | VString _ | VBuiltin _ => false
  end.

(** [key.split('.')]: never empty, the empty key gives one empty segment. *)
Fixpoint split_dot (s : string) : list string :=
  match s with
  | EmptyString => [""]
  | String c s' =>
      if Ascii.eqb c "." then "" :: split_dot s'
      else match split_dot s' with
           | seg :: segs => String c seg :: segs
           | [] => [String c ""]
           end
  end.

(** ** The document, as far as the store writes it *)

(** An element carrying [data-i18n]. A text input receives the translation
    as its placeholder, any other element as its text content. The fields
    hold the value assigned; the document keeps its string form. *)
Record Element := {
  dataI18n : string;
  textInput : bool;
  textContent : Value;
  placeholder : Value
}.

Record TitledElement := {
  dataI18nTitle : string;
  titleAttr : Value
}.

Record LangBtn := {
  dataLang : option string;
  active : bool
}.

Record Document := {
  tagged : list Element;
  titled : list TitledElement;
  langButtons : list LangBtn;
  documentLang : string
}.

(** ** The store *)

(** The fields of the [I18n] instance, with what it reads and writes
    around it: local storage and the document. Subscribed callbacks are
    known by a number; [calls] lists their invocations, oldest first, each
    with the argument it received. *)
Record Store := {
  currentLang : string;
  translations : list (string * Table);
  observers : list nat;
  storage : gmap string string;
  document : Document;
  calls : list (nat * string)
}.

(** [localStorage.getItem('language') || 'en'] *)
Definition constructor (stored : gmap string string) (doc : Document) : Store :=
  {| currentLang :=
       match stored !! "language" with
       | Some l => if String.eqb l "" then "en" else l
       | None => "en"
       end;
     translations := [];
     observers := [];
     storage := stored;
     document := doc;
     calls := [] |}.

Definition getLanguage (st : Store) : string := currentLang st.

(** The loop of [translate]: [None] is the [return key] inside the loop. *)
Fixpoint descend (value : Value) (keys : list string)
  : completion (option Value) :=
  match keys with
  | [] => Return (Some value)
  | k :: keys' =>
      if truthy value && typeofObject value
      then value' ← getMember value k; descend value' keys'
      else Return None
  end.

(** The end of [translate]: [value || key] after the loop, [key] when the
    loop was left early. *)
Definition orKey (key : string) (found : option Value) : Value :=
  match found with
  | Some value => if truthy value then value else VString key
  | None => VString key
  end.

Definition translate (st : Store) (key : string) : completion Value :=
  let keys := split_dot key in
  value ← getMember (VObject (translations st)) (currentLang st);
  found ← descend value keys;
  Return (orKey key found).

Definition t (st : Store) (key : string) : completion Value := translate st key.

(** [Array.prototype.forEach] with a callback that may throw. *)
Fixpoint mapM {A B} (f : A -> completion B) (l : list A) : completion (list B) :=
  match l with
  | [] => Return []
  | x :: l' => y ← f x; ys ← mapM f l'; Return (y :: ys)
  end.

Definition applyTranslations (st : Store) : completion Document :=
  els ← mapM (fun el =>
                translation ← translate st (dataI18n el);
                Return (if textInput el
                        then {| dataI18n := dataI18n el; textInput := true;
                                textContent := textContent el;
                                placeholder := translation |}
                        else {| dataI18n := dataI18n el; textInput := false;
                                textContent := translation;
                                placeholder := placeholder el |}))
             (tagged (document st));
  tls ← mapM (fun el =>
                translation ← translate st (dataI18nTitle el);
                Return {| dataI18nTitle := dataI18nTitle el;
                          titleAttr := translation |})
             (titled (document st));
  Return {| tagged := els; titled := tls;
            langButtons := langButtons (document st);
            documentLang := currentLang st |}.

Definition updateLangButtons (lang : string) (doc : Document) : Document :=
  {| tagged := tagged doc; titled := titled doc;
     langButtons :=
       map (fun btn =>
              {| dataLang := dataLang btn;
                 active := match dataLang btn with
                           | Some l => String.eqb l lang
                           | None => false
                           end |})
           (langButtons doc);
     documentLang := documentLang doc |}.

(** Each callback is invoked with the current language, in the order of
    subscription. *)
Definition notifyObservers (lang : string) (obs : list nat) (log : list (nat * string))
  : list (nat * string) :=
  log ++ map (fun callback => (callback, lang)) obs.


Definition setLanguage (st : Store) (lang : string) : completion Store :=
  if negb (String.eqb lang "en") && negb (String.eqb lang "pt") then Return st
  else
    let st1 :=
      {| currentLang := lang; translations := translations st;
         observers := observers st;
         storage := <["language" := lang]> (storage st);
         document := document st; calls := calls st |} in
    doc ← applyTranslations st1;
    Return {| currentLang := lang; translations := translations st;
              observers := observers st;
              storage := storage st1;
              document := updateLangButtons lang doc;
              calls := notifyObservers lang (observers st) (calls st) |}.

(** [init] after the fetch: [fetched] is the parsed table, [None] when the
    fetch or the parse failed (the store then stays as it was). *)
Definition init (fetched : option (list (string * Table))) (st : Store)
  : completion Store :=
  match fetched with
  | None => Return st
  | Some table =>
      let st1 :=
        {| currentLang := currentLang st; translations := table;
           observers := observers st; storage := storage st;
           document := document st; calls := calls st |} in
      match applyTranslations st1 with
      | Return doc =>
          Return {| currentLang := currentLang st; translations := table;
                    observers := observers st; storage := storage st;
                    document := updateLangButtons (currentLang st) doc;
                    calls := calls st |}
      | Throw _ => Return st1
      end
  end.

(** ** Reference for the statements: the path through own entries *)

(** Following [keys] from an object through own entries only; [None] when
    a segment is missing or a text is reached before the last segment. *)
Fixpoint ownPath (o : list (string * Table)) (keys : list string) : option Table :=
  match keys with
  | [] => Some (Entries o)
  | k :: keys' =>
      match own o k with
      | Some (Entries o') => ownPath o' keys'
      | Some (Text s) => match keys' with [] => Some (Text s) | _ => None end
      | None => None
      end
  end.

(** Segments that are not names of members of [Object.prototype]. *)
Definition plain (keys : list string) : Prop :=
  Forall (fun k => inherited k = false) keys.

(** The entry of the current language's table that [key] names. *)
Definition resolved (st : Store) (key : string) : option Table :=
  ownPath (translations st) (currentLang st :: split_dot key).

(** ** Sample data *)

Definition sampleTable : list (string * Table) :=
  [ ("en", Entries [ ("nav", Entries [ ("home", Text "Home");
                                       ("blog", Text "Blog") ]);
                     ("search", Text "Search posts");
                     ("draft", Text "") ]);
    ("pt", Entries [ ("nav", Entries [ ("home", Text "Inicio");
                                       ("blog", Text "Blog") ]);
                     ("search", Text "Buscar posts") ]) ].

Definition sampleDocument : Document :=
  {| tagged := [ {| dataI18n := "nav.home"; textInput := false;
                    textContent := VString "Home"; placeholder := VUndefined |};
                 {| dataI18n := "search"; textInput := true;
                    textContent := VUndefined;
                    placeholder := VString "Search posts" |} ];
     titled := [ {| dataI18nTitle := "nav.blog"; titleAttr := VString "Blog" |} ];
     langButtons := [ {| dataLang := Some "en"; active := true |};
                      {| dataLang := Some "pt"; active := false |} ];
     documentLang := "en" |}.

(** English selected, the table loaded, two subscribers. *)
Definition sampleStore : Store :=
  {| currentLang := "en";
     translations := sampleTable;
     observers := [0%nat; 1%nat];
     storage := {[ "language" := "en" ]};
     document := sampleDocument;
     calls := [] |}.

End I18n.

(* ===================================================================== *)
(** * Numbers of the host language *)
(* ===================================================================== *)

(** JavaScript numbers are IEEE-754 binary64 values with round-to-nearest,
    ties-to-even arithmetic: the primitive [float] with its operations.
    The functions below are the library calls the theme module makes; they
    are computed exactly, through the sign, mantissa and exponent of their
    arguments. *)
Module JsNumber.

Local Open Scope float_scope.

(** The number nearest to [m * 2 ^ e] (ties to even). *)
Definition ofScaled (m e : Z) : float :=
  SF2Prim (binary_normalize prec emax m e false).

Definition ofZ (z : Z) : float := ofScaled z 0.

(** [Math.min] and [Math.max] on two arguments: [NaN] if either is, and
    [-0] counts as smaller than [+0]. With three arguments the calls nest. *)
Definition Math_min (x y : float) : float :=
  if is_nan x || is_nan y then nan
  else if x <? y then x
  else if y <? x then y
  else if get_sign x then x else y.

Definition Math_max (x y : float) : float :=
  if is_nan x || is_nan y then nan
  else if y <? x then x
  else if x <? y then y
  else if get_sign x then y else x.

(** The operator [%]: the exact remainder of the truncated division, with
    the sign of the dividend. *)
Definition remainder (x y : float) : float :=
  match Prim2SF x, Prim2SF y with
  | S754_nan, _ | _, S754_nan => nan
  | S754_infinity _, _ => nan
  | _, S754_zero _ => nan
  | S754_zero _, _ => x
  | _, S754_infinity _ => x
  | S754_finite sx mx ex, S754_finite _ my ey =>
      let e := Z.min ex ey in
      let r := ((Zpos mx * 2 ^ (ex - e)) mod (Zpos my * 2 ^ (ey - e)))%Z in
      if (r =? 0)%Z then (if sx then neg_zero else zero)
      else if sx then - ofScaled r e else ofScaled r e
  end.

(** [Math.round]: the integer nearest to the argument, a tie going up. *)
Definition Math_round (x : float) : float :=
  match Prim2SF x with
  | S754_finite s m e =>
      if (0 <=? e)%Z then x
      else
        let v := if s then Zneg m else Zpos m in
        let n := ((2 * v + 2 ^ (- e)) / 2 ^ (1 - e))%Z in
        if (n =? 0)%Z then (if s then neg_zero else zero) else ofZ n
  | _ => x
  end.

(** Digits in a radix up to 36, lower case. *)
Definition digitChar (d : Z) : ascii :=
  if (d <? 10)%Z then ascii_of_nat (48 + Z.to_nat d)
  else ascii_of_nat (87 + Z.to_nat d).

Fixpoint digitsOf (fuel : nat) (radix n : Z) (acc : string) : string :=
  match fuel with
  | O => acc
  | S fuel' =>
      let acc' := String (digitChar (n mod radix)) acc in
      if (n / radix =? 0)%Z then acc' else digitsOf fuel' radix (n / radix) acc'
  end.

Definition integerDigits (radix n : Z) : string :=
  digitsOf (S (Z.to_nat (Z.log2 n))) radix n "".

(** The digits after the point of [frac / 2 ^ k], in radix 16. *)
Fixpoint fractionDigits16 (fuel : nat) (frac k : Z) : string :=
  match fuel with
  | O => ""
  | S fuel' =>
      if (frac =? 0)%Z then ""
      else String (digitChar (16 * frac / 2 ^ k))
                  (fractionDigits16 fuel' ((16 * frac) mod 2 ^ k) k)
  end.

(** [Number.prototype.toString(16)]. For a number with a fractional part
    the digits are those of its exact binary expansion. *)
Definition toString16 (x : float) : string :=
  match Prim2SF x with
  | S754_nan => "NaN"
  | S754_zero _ => "0"
  | S754_infinity s => if s then "-Infinity" else "Infinity"
  | S754_finite s m e =>
      (if s then "-" else "") +:+
      (if (0 <=? e)%Z then integerDigits 16 (Zpos m * 2 ^ e)
       else
         let k := (- e)%Z in
         let whole := (Zpos m / 2 ^ k)%Z in
         let frac := (Zpos m mod 2 ^ k)%Z in
         integerDigits 16 whole +:+
         (if (frac =? 0)%Z then ""
          else "." +:+ fractionDigits16 (Z.to_nat k) frac k))
  end.

(** [String.prototype.padStart(n, fill)] with a one-character filler. *)
Definition padStart (n : nat) (fill : ascii) (s : string) : string :=
  Nat.iter (n - String.length s) (String fill) s.

(** The value of a character as a digit, if it is one in some radix. *)
Definition digitValue (c : ascii) : option Z :=
  let n := Z.of_nat (nat_of_ascii c) in
  if ((48 <=? n) && (n <=? 57))%Z then Some (n - 48)%Z
  else if ((97 <=? n) && (n <=? 122))%Z then Some (n - 87)%Z
  else if ((65 <=? n) && (n <=? 90))%Z then Some (n - 55)%Z
  else None.

(** The digits of the longest prefix of [s] written in radix [radix]. *)
Fixpoint leadingDigits (radix : Z) (s : string) : list Z :=
  match s with
  | EmptyString => []
  | String c s' =>
      match digitValue c with
      | Some d => if (d <? radix)%Z then d :: leadingDigits radix s' else []
      | None => []
      end
  end.

(** White space in front of the numeral: tab, line feed, vertical tab,
    form feed, carriage return and space. *)
Definition isWhiteSpace (c : ascii) : bool :=
  let n := nat_of_ascii c in
  ((9 <=? n) && (n <=? 13))%nat || (n =? 32)%nat.

Fixpoint trimStart (s : string) : string :=
  match s with
  | String c s' => if isWhiteSpace c then trimStart s' else s
  | EmptyString => s
  end.

Definition hasHexPrefix (s : string) : bool :=
  String.prefix "0x" s || String.prefix "0X" s.

(** The text without its sign. *)
Definition unsigned (s : string) : string :=
  if String.prefix "-" s || String.prefix "+" s
  then String.substring 1 (String.length s) s else s.

(** [parseInt(s, radix)]; [radix] is 0 when the argument is left out. The
    text is read after leading white space and one sign ([unsigned] drops
    the sign), and the numeral's value is rounded to the nearest number. *)
Definition parseInt (s : string) (radix : Z) : float :=
  let s1 := trimStart s in
  let negative := String.prefix "-" s1 in
  let s2 := unsigned s1 in
  if (negb (radix =? 0) && ((radix <? 2) || (36 <? radix)))%Z then nan
  else
    let stripPrefix := ((radix =? 0) || (radix =? 16))%Z in
    let r := if stripPrefix && hasHexPrefix s2 then 16%Z
             else if (radix =? 0)%Z then 10%Z else radix in
    let s3 := if stripPrefix && hasHexPrefix s2
              then String.substring 2 (String.length s2) s2 else s2 in
    match leadingDigits r s3 with
    | [] => nan
    | ds =>
        let n := fold_left (fun acc d => (acc * r + d)%Z) ds 0%Z in
        if negative then - ofZ n else ofZ n
    end.

(** The argument as [parseInt] sees it: [null] reads as the text "null". *)
Definition ofNullable (v : option string) : string :=
  match v with
  | Some s => s
  | None => "null"
  end.

(** A number is falsy when it is [NaN] or a zero. *)
Definition falsy (x : float) : bool := is_nan x || is_zero x.






End JsNumber.

(* ===================================================================== *)
(** * Theme store *)
(* ===================================================================== *)

Module Theme.

Import JsNumber.

Local Open Scope float_scope.

Record Preset := {
  hue : float;
  name : string
}.

Definition presets : list (string * Preset) :=
  [ ("academic", {| hue := 220; name := "Academic Blue" |});
    ("forest", {| hue := 150; name := "Forest Green" |});
    ("sunset", {| hue := 25; name := "Warm Orange" |});
    ("lavender", {| hue := 270; name := "Lavender" |});
    ("rose", {| hue := 350; name := "Rose" |});
    ("ocean", {| hue := 195; name := "Ocean Teal" |});
    ("gold", {| hue := 45; name := "Gold" |});
    ("slate", {| hue := 215; name := "Slate" |}) ].

Fixpoint preset (table : list (string * Preset)) (key : string) : option Preset :=
  match table with
  | [] => None
  | (k, p) :: table' => if String.eqb key k then Some p else preset table' key
  end.

(** ** Colour conversions *)

(** One channel of [hslToHex]: the function [f] of the source, after
    [s /= 100] and [l /= 100]. *)
Definition channel (h s l n : float) : string :=
  let a := s * Math_min l (1 - l) in
  let k := remainder (n + h / 30) 12 in
  let color := l - a * Math_max (Math_min (Math_min (k - 3) (9 - k)) 1) (-1) in
  padStart 2 "0" (toString16 (Math_round (255 * color))).

Definition hslToHex (h s l : float) : string :=
  let s := s / 100 in
  let l := l / 100 in
  "#" +:+ channel h s l 0 +:+ channel h s l 8 +:+ channel h s l 4.

Record Hsl := {
  hsl_h : float;
  hsl_s : float;
  hsl_l : float
}.

(** [h] starts out [undefined]; [NaN] stands for it, since the only use of
    [h] is the product [h * 360]. *)
Definition hexToHsl (hex : string) : Hsl :=
  let r := parseInt (String.substring 1 2 hex) 16 / 255 in
  let g := parseInt (String.substring 3 2 hex) 16 / 255 in
  let b := parseInt (String.substring 5 2 hex) 16 / 255 in
  let max := Math_max (Math_max r g) b in
  let min := Math_min (Math_min r g) b in
  let l := (max + min) / 2 in
  let '(h, s) :=
    if max =? min then (0, 0)
    else
      let d := max - min in
      let s := if 0.5 <? l then d / (2 - max - min) else d / (max + min) in
      let h :=
        if max =? r then ((g - b) / d + (if g <? b then 6 else 0)) / 6
        else if max =? g then ((b - r) / d + 2) / 6
        else if max =? b then ((r - g) / d + 4) / 6
        else nan in
      (h, s) in
  {| hsl_h := Math_round (h * 360);
     hsl_s := Math_round (s * 100);
     hsl_l := Math_round (l * 100) |}.

(** ** The manager and the page around it *)

(** A button of class [theme-preset]: its [data-preset] attribute and
    whether it carries the class [active]. *)
Record PresetBtn := {
  dataPreset : string;
  active : bool
}.

(** The fields of the [ThemeManager] ([currentHue], [isPanelOpen]) and what
    [applyTheme] writes: the custom property [--primary-hue], the entry
    [themeHue] of local storage, the preset buttons and the colour picker
    ([None] on a page without one). [primaryHue] and [persistedHue] hold
    the number handed over; the platform keeps its string form. *)
Record ThemeManager := {
  currentHue : float;
  isPanelOpen : bool;
  primaryHue : option float;
  persistedHue : option float;
  presetButtons : list PresetBtn;
  colorPicker : option string
}.

(** [parseInt(localStorage.getItem('themeHue')) || 220]; [stored] is what
    [getItem] returns, [None] for [null]. *)
Definition storedHue (stored : option string) : float :=
  let parsed := parseInt (ofNullable stored) 0 in
  if falsy parsed then 220 else parsed.

Definition constructor (stored : option string) (buttons : list PresetBtn)
    (picker : option string) : ThemeManager :=
  {| currentHue := storedHue stored;
     isPanelOpen := false;
     primaryHue := None;
     persistedHue := None;
     presetButtons := buttons;
     colorPicker := picker |}.

(** [classList.toggle('active', preset && preset.hue === currentHue)]. For
    a key that names an inherited member, [preset.hue] is [undefined] and
    the class goes; for any other key that names no preset the second
    argument is [undefined] and the class flips. *)
Definition updatePresetIndicators (current : float) (buttons : list PresetBtn)
  : list PresetBtn :=
  map (fun btn =>
         {| dataPreset := dataPreset btn;
            active := match preset presets (dataPreset btn) with
                      | Some p => hue p =? current
                      | None => if inherited (dataPreset btn) then false
                                else negb (active btn)
                      end |})
      buttons.

Definition applyTheme (th : ThemeManager) (h : float) : ThemeManager :=
  {| currentHue := h;
     isPanelOpen := isPanelOpen th;
     primaryHue := Some h;
     persistedHue := Some h;
     presetButtons := updatePresetIndicators h (presetButtons th);
     colorPicker := match colorPicker th with
                    | Some _ => Some (hslToHex h 70 50)
                    | None => None
                    end |}.

(** [setPreset] is called with the keys of [presets] only (one listener
    per rendered button). *)
Definition setPreset (th : ThemeManager) (presetName : string) : ThemeManager :=
  match preset presets presetName with
  | Some p => applyTheme th (hue p)
  | None => th
  end.

(** [renderPresets]: the container is emptied and one button per preset is
    added, active when its hue is the current one. *)
Definition renderPresets (th : ThemeManager) : ThemeManager :=
  {| currentHue := currentHue th;
     isPanelOpen := isPanelOpen th;
     primaryHue := primaryHue th;
     persistedHue := persistedHue th;
     presetButtons :=
       map (fun kp => {| dataPreset := fst kp;
                         active := hue (snd kp) =? currentHue th |})
           presets;
     colorPicker := colorPicker th |}.

(** [init]: [applyTheme(this.currentHue)], the picker set once more by
    [setupEventListeners], then [renderPresets]. *)
Definition init (th : ThemeManager) : ThemeManager :=
  renderPresets (applyTheme th (currentHue th)).

(** The picker's input handler and the reset button. *)
Definition onPickerInput (th : ThemeManager) (value : string) : ThemeManager :=
  applyTheme th (hsl_h (hexToHsl value)).

Definition onReset (th : ThemeManager) : ThemeManager := applyTheme th 220.


(** The manager after the page has loaded: [stored] is the entry of local
    storage, [buttons] and [picker] are what the document holds. *)
Definition loaded (stored : option string) (buttons : list PresetBtn)
    (picker : option string) : ThemeManager :=
  init (constructor stored buttons picker).

End Theme.

(* ===================================================================== *)
(** * Order of the listing *)
(* ===================================================================== *)

From Stdlib Require Sorted.

Module BlogOrder.

Import Blog.

(** Newest first: no post is followed, anywhere later, by a newer one. *)
Definition newestFirstOrder (l : list Post) : Prop :=
  Sorted.StronglySorted (fun a b => date b <= date a) l.

(** The posts of a list that carry a given date, in the list's order. *)
Definition datedOn (d : Z) (l : list Post) : list Post :=
  List.filter (fun post => date post =? d) l.

End BlogOrder.

(* ===================================================================== *)
(** * Blog module: category list and tag cloud *)
(* ===================================================================== *)

Module BlogSidebar.

Import Blog.

(** A link of the category list: its [data-category], the name and the
    count it displays, and whether it carries the class [active]. *)
Record CategoryItem := {
  dataCategory : string;
  label : string;
  count : nat;
  activeItem : bool
}.

(** [this.categories[lang] || {}], as the entries [Object.entries] lists. *)
Fixpoint namesFor (table : list (string * list (string * string))) (lang : string)
  : list (string * string) :=
  match table with
  | [] => []
  | (l, names) :: table' => if String.eqb lang l then names else namesFor table' lang
  end.

(** [this.posts.filter(p => p.category === key).length] *)
Definition countIn (m : BlogManager) (key : string) : nat :=
  length (List.filter (fun p => String.eqb (category p) key) (posts m)).

(** The link "All" of [renderCategories]. *)
Definition allItem (i18n : option string) (m : BlogManager) : CategoryItem :=
  {| dataCategory := "all";
     label := if String.eqb (getCurrentLang i18n) "pt" then "Todos" else "All";
     count := length (posts m);
     activeItem := String.eqb (currentCategory m) "all" |}.

(** The links [renderCategories] adds for the entries of the table: one
    per category that has a post. *)
Fixpoint categoryItems (m : BlogManager) (names : list (string * string))
  : list CategoryItem :=
  match names with
  | [] => []
  | (key, name) :: names' =>
      let n := countIn m key in
      if (0 <? n)%nat
      then {| dataCategory := key; label := name; count := n;
              activeItem := String.eqb (currentCategory m) key |}
           :: categoryItems m names'
      else categoryItems m names'
  end.

Definition renderCategories (i18n : option string) (m : BlogManager)
  : list CategoryItem :=
  allItem i18n m
  :: categoryItems m (namesFor (categories m) (getCurrentLang i18n)).

(** [usedTags.add(tag)] on a set kept in insertion order. *)
Definition addTag (seen : list string) (tag : string) : list string :=
  if array_includes seen tag then seen else seen ++ [tag].

(** The set [usedTags] of [renderTags], as [Array.from] lists it. *)
Definition usedTags (ps : list Post) : list string :=
  fold_left (fun seen post => fold_left addTag (tags post) seen) ps [].

Record TagItem := {
  dataTag : string;
  tagActive : bool
}.

Definition renderTags (m : BlogManager) : list TagItem :=
  map (fun tag =>
         {| dataTag := tag;
            tagActive := match currentTag m with
                         | Some current => String.eqb current tag
                         | None => false
                         end |})
      (usedTags (posts m)).

End BlogSidebar.

(* ===================================================================== *)
(** * Localization store: what a sweep leaves in the document *)
(* ===================================================================== *)

Module I18nSweep.

Import I18n.

(** The slot of a tagged element that a sweep writes: the placeholder of
    a text input, the text content of any other element. *)
Definition translatedSlot (el : Element) : Value :=
  if textInput el then placeholder el else textContent el.

(** The slot a sweep leaves alone. *)
Definition otherSlot (el : Element) : Value :=
  if textInput el then textContent el else placeholder el.

(** [el'] shows the translation of its key for the store [st], and is
    otherwise the element [el]. *)
Definition showsTranslation (st : Store) (el el' : Element) : Prop :=
  dataI18n el' = dataI18n el
  /\ textInput el' = textInput el
  /\ otherSlot el' = otherSlot el
  /\ translate st (dataI18n el) = Return (translatedSlot el').

Definition titleShowsTranslation (st : Store) (el el' : TitledElement) : Prop :=
  dataI18nTitle el' = dataI18nTitle el
  /\ translate st (dataI18nTitle el) = Return (titleAttr el').

(** A language button is marked exactly when its code is [lang]. *)
Definition marks (lang : string) (btn btn' : LangBtn) : Prop :=
  dataLang btn' = dataLang btn
  /\ (active btn' = true <-> dataLang btn = Some lang).


End I18nSweep.

(* ===================================================================== *)
(** * Theme store: the events of the panel *)
(* ===================================================================== *)

Module ThemeEvents.

Import JsNumber Theme.

Local Open Scope float_scope.

(** The integer hue [n] as a number. *)
Definition hueOf (n : nat) : float := ofZ (Z.of_nat n).

(** What the user can do to the hue: click the [i]-th preset button that
    [renderPresets] created (its listener calls [setPreset] with the key of
    the [i]-th preset), pick a colour, or click the reset button. *)
Inductive Event :=
| PresetClick (i : nat)
| PickerInput (value : string)
| ResetClick.

Definition step (th : ThemeManager) (ev : Event) : ThemeManager :=
  match ev with
  | PresetClick i =>
      match nth_error presets i with
      | Some (key, _) => setPreset th key
      | None => th
      end
  | PickerInput value => onPickerInput th value
  | ResetClick => onReset th
  end.

Definition run (th : ThemeManager) (evs : list Event) : ThemeManager :=
  fold_left step evs th.




(** The copies of the hue agree: the custom property and the stored entry
    hold the current hue, and the colour picker, if the page has one,
    shows its colour. *)
Definition copiesAgree (th : ThemeManager) : Prop :=
  primaryHue th = Some (currentHue th)
  /\ persistedHue th = Some (currentHue th)
  /\ (colorPicker th = None
      \/ colorPicker th = Some (hslToHex (currentHue th) 70 50)).

End ThemeEvents.

(* ===================================================================== *)
(** * Utilities of the main module *)
(* ===================================================================== *)

Module Utils.

Import JsNumber.

(** ** [debounce] *)

(** The closure [debounce(func, wait)] returns, with the record of what
    [func] has been called with. [armed] holds the arguments of the timer
    that is set and has neither fired nor been cleared. *)
Record Debounced (A : Type) := {
  armed : option A;
  invoked : list A
}.
Arguments armed {A} _.
Arguments invoked {A} _.

(** A call of the returned function: the timer that was set is cleared
    and a new one is set for these arguments. *)
Definition call {A} (st : Debounced A) (args : A) : Debounced A :=
  {| armed := Some args; invoked := invoked st |}.

(** The host runs the timer that is set (it does nothing for one that
    was cleared): [func] is called with the arguments of that call. *)
Definition timerFires {A} (st : Debounced A) : Debounced A :=
  match armed st with
  | Some args => {| armed := None; invoked := invoked st ++ [args] |}
  | None => st
  end.

Inductive Tick (A : Type) :=
| Call (args : A)
| Fire.
Arguments Call {A} args.
Arguments Fire {A}.

Definition tick {A} (st : Debounced A) (t : Tick A) : Debounced A :=
  match t with
  | Call args => call st args
  | Fire => timerFires st
  end.

Definition ticks {A} (st : Debounced A) (ts : list (Tick A)) : Debounced A :=
  fold_left tick ts st.

(** ** [truncateText] *)





(** ** [calculateReadingTime] *)

Fixpoint trimEnd (s : string) : string :=
  match s with
  | EmptyString => EmptyString
  | String c s' =>
      match trimEnd s' with
      | EmptyString => if isWhiteSpace c then EmptyString else String c EmptyString
      | rest => String c rest
      end
  end.

Definition trim (s : string) : string := trimEnd (trimStart s).





End Utils.

(* ===================================================================== *)
(** * Page chrome: the mobile menu *)
(* ===================================================================== *)

Module MobileMenu.

(** The class [active] on the menu and on the toggle button, and whether
    the three bars of the button are drawn as a cross. *)
Record Menu := {
  menuActive : bool;
  toggleActive : bool;
  crossed : bool
}.

(** Clicks: on the toggle button, on a link of the menu, elsewhere inside
    the menu, and outside both the menu and the button. *)
Inductive Click :=
| OnToggle
| OnLink
| InsideMenu
| Outside.

Definition close (m : Menu) : Menu :=
  {| menuActive := false; toggleActive := false; crossed := crossed m |}.

Definition click (m : Menu) (c : Click) : Menu :=
  match c with
  | OnToggle =>
      {| menuActive := negb (menuActive m);
         toggleActive := negb (toggleActive m);
         crossed := negb (toggleActive m) |}
  | OnLink => close m
  | InsideMenu => m
  | Outside => close m
  end.

Definition clicks (m : Menu) (cs : list Click) : Menu := fold_left click cs m.

(** The page as served: menu closed, bars drawn. *)
Definition closed : Menu :=
  {| menuActive := false; toggleActive := false; crossed := false |}.

(** The toggle clicks since the menu was last closed by another click. *)
Fixpoint togglesSinceClose (cs : list Click) (n : nat) : nat :=
  match cs with
  | [] => n
  | OnToggle :: cs' => togglesSinceClose cs' (S n)
  | InsideMenu :: cs' => togglesSinceClose cs' n
  | _ :: cs' => togglesSinceClose cs' 0
  end.

End MobileMenu.

(* ===================================================================== *)
(** * Research module: the tabs *)
(* ===================================================================== *)

Module ResearchTabs.

Record Tab := {
  dataTab : option string;
  tabActive : bool
}.

Record Content := {
  contentId : string;
  contentActive : bool
}.

Record Tabs := {
  tabs : list Tab;
  contents : list Content
}.

(** Tabs are told apart by their position in the document: every tab
    loses the class [active], then the one at position [i] gets it.
    [position] is the position of the first tab of [l]. *)
Fixpoint activateOnly (i position : nat) (l : list Tab) : list Tab :=
  match l with
  | [] => []
  | tab :: l' =>
      {| dataTab := dataTab tab; tabActive := Nat.eqb position i |}
      :: activateOnly i (S position) l'
  end.

(** The listener [setupTabs] puts on the [i]-th tab. *)
Definition clickTab (i : nat) (page : Tabs) : Tabs :=
  match nth_error (tabs page) i with
  | None => page
  | Some tab =>
      {| tabs := activateOnly i 0 (tabs page);
         contents :=
           map (fun content =>
                  {| contentId := contentId content;
                     contentActive :=
                       match dataTab tab with
                       | Some target => String.eqb (contentId content) target
                       | None => false
                       end |})
               (contents page) |}
  end.

End ResearchTabs.
(* ===================================================================== *)
(** * Configuration module: the social links *)
(* ===================================================================== *)

Module Config.

Import I18n.

(** [config.json] as far as the social links read it: [social], when it
    is there, is an object whose members are strings or objects. *)
Record ConfigData := {
  social : option (list (string * Table))
}.

(** [this.config?.social]; [config] is [null] until a fetch succeeds. *)
Definition socialOf (config : option ConfigData) : option (list (string * Table)) :=
  match config with
  | Some data => social data
  | None => None
  end.

(** [social[platform]] on a plain object: an own entry, or a member of
    [Object.prototype]. *)
Definition socialMember (o : list (string * Table)) (platform : string) : Value :=
  match own o platform with
  | Some t => ofTable t
  | None =>
      if String.eqb platform "__proto__" then VObjectPrototype
      else if inherited platform then VBuiltin platform
      else VUndefined
  end.

Definition getSocial (config : option ConfigData) (platform : string) : Value :=
  match socialOf config with
  | Some o =>
      let url := socialMember o platform in
      if truthy url then url else VString "#"
  | None => VString "#"
  end.

(** A link of the document with its [data-social] and [data-social-text]
    attributes. [href] holds the value assigned; the document keeps its
    string form. *)
Record Link := {
  dataSocial : option string;
  dataSocialText : option string;
  href : Value
}.

(** The body of both loops of [applySocialLinks], for the links that
    carry the attribute [attr]. *)
Definition setHref (attr : Link -> option string) (o : list (string * Table))
    (link : Link) : Link :=
  match attr link with
  | None => link
  | Some platform =>
      let url := socialMember o platform in
      if truthy url
      then {| dataSocial := dataSocial link;
              dataSocialText := dataSocialText link;
              href := url |}
      else link
  end.

Definition applySocialLinks (config : option ConfigData) (links : list Link)
  : list Link :=
  match socialOf config with
  | None => links
  | Some o => map (setHref dataSocialText o) (map (setHref dataSocial o) links)
  end.

(** What [applySocialLinks] leaves of a link [link]. *)
Definition linked (config : option ConfigData) (link link' : Link) : Prop :=
  dataSocial link' = dataSocial link
  /\ dataSocialText link' = dataSocialText link
  /\ (href link' = href link
      \/ exists platform,
           (dataSocial link = Some platform \/ dataSocialText link = Some platform)
           /\ href link' = getSocial config platform)
  /\ (forall platform,
        dataSocialText link = Some platform ->
        getSocial config platform <> VString "#" ->
        href link' = getSocial config platform)
  /\ (forall platform,
        dataSocial link = Some platform ->
        dataSocialText link = None ->
        getSocial config platform <> VString "#" ->
        href link' = getSocial config platform)
  /\ (truthy (href link) = true -> truthy (href link') = true).

End Config.

(* ===================================================================== *)
(** * Page chrome: the active navigation link *)
(* ===================================================================== *)

Module Navigation.

(** [pathname.split('/')]: never empty. *)
Fixpoint splitSlash (s : string) : list string :=
  match s with
  | EmptyString => [""]
  | String c s' =>
      if Ascii.eqb c "/" then "" :: splitSlash s'
      else match splitSlash s' with
           | piece :: pieces => String c piece :: pieces
           | [] => [String c ""]
           end
  end.

(** [pathname.split('/').pop() || 'index.html'] *)
Definition currentPage (pathname : string) : string :=
  let piece := List.last (splitSlash pathname) "" in
  if String.eqb piece "" then "index.html" else piece.

(** A link of class [nav-link]: its [href] attribute, if it has one, and
    whether it carries the class [active]. *)
Record NavLink := {
  href : option string;
  active : bool
}.

Definition highlight (page : string) (link : NavLink) : NavLink :=
  let hit :=
    match href link with
    | Some h => String.eqb h page || (String.eqb page "" && String.eqb h "index.html")
    | None => false
    end in
  if hit then {| href := href link; active := true |} else link.

Definition initNavigation (pathname : string) (links : list NavLink)
  : list NavLink :=
  map (highlight (currentPage pathname)) links.

(** No character of [s] is a slash. *)
Fixpoint slashFree (s : string) : bool :=
  match s with
  | EmptyString => true
  | String c s' => negb (Ascii.eqb c "/") && slashFree s'
  end.

End Navigation.

(* ===================================================================== *)
(** * Research module: the abstract toggles *)
(* ===================================================================== *)

Module ResearchAbstract.

(** An abstract with the button below it: whether the abstract carries
    the class [expanded], the text of the button, and the two labels the
    button holds in [data-read-more] and [data-show-less]. *)
Record Toggle := {
  expanded : bool;
  buttonText : string;
  dataReadMore : string;
  dataShowLess : string
}.

Definition readMoreLabel (lang : string) : string :=
  if String.eqb lang "pt" then "Ler Mais" else "Read More".

Definition showLessLabel (lang : string) : string :=
  if String.eqb lang "pt" then "Mostrar Menos" else "Show Less".

Definition newline : string := String (Ascii.ascii_of_nat 10) "".

(** The toggle as [createResearchCard] writes it: collapsed, the button
    text being the label on a line of its own. *)
Definition created (lang : string) : Toggle :=
  {| expanded := false;
     buttonText := newline +:+ "              " +:+ readMoreLabel lang
                   +:+ newline +:+ "            ";
     dataReadMore := readMoreLabel lang;
     dataShowLess := showLessLabel lang |}.

(** The listener [setupAbstractToggles] puts on the button. *)
Definition click (t : Toggle) : Toggle :=
  {| expanded := negb (expanded t);
     buttonText := if expanded t then dataReadMore t else dataShowLess t;
     dataReadMore := dataReadMore t;
     dataShowLess := dataShowLess t |}.

Definition clicks (n : nat) (t : Toggle) : Toggle := Nat.iter n click t.

End ResearchAbstract.

(* ===================================================================== *)
(** * Facts about the host language *)
(* ===================================================================== *)

Lemma bind_Return_inv {A B} (m : completion A) (f : A -> completion B) (b : B) :
  m ≫= f = Return b -> exists a, m = Return a /\ f a = Return b.
Proof. destruct m as [a|e]; simpl; [eauto | discriminate]. Qed.

Section JsFacts.

Context {A : Type}.

Lemma filterM_In (p : A -> completion bool) (l r : list A) :
  filterM p l = Return r ->
  forall x, In x r <-> In x l /\ p x = Return true.
Proof.
  revert r. induction l as [|y l IH]; simpl; intros r H x.
  - inversion H; subst. simpl. tauto.
  - apply bind_Return_inv in H as (b & Hb & H).
    apply bind_Return_inv in H as (r' & Hr' & H).
    inversion H; subst; clear H.
    specialize (IH _ Hr' x).
    destruct b; simpl; rewrite IH; split.
    + intros [->|[? ?]]; auto.
    + intros [[->|?] ?]; auto.
    + intros [? ?]; auto.
    + intros [[->|?] Hx]; [congruence | auto].
Qed.

Lemma insert_sorted_perm (cmp : A -> A -> Z) (x : A) (l : list A) :
  Permutation (insert_sorted cmp x l) (x :: l).
Proof.
  induction l as [|y l IH]; simpl; [reflexivity|].
  destruct (cmp x y <=? 0); [reflexivity|].
  rewrite IH. apply perm_swap.
Qed.

Lemma sort_perm (cmp : A -> A -> Z) (l : list A) : Permutation (sort cmp l) l.
Proof.
  induction l as [|x l IH]; simpl; [reflexivity|].
  fold (sort cmp l). rewrite insert_sorted_perm. now constructor.
Qed.

Lemma sort_In (cmp : A -> A -> Z) (l : list A) (x : A) :
  In x (sort cmp l) <-> In x l.
Proof.
  split; apply Permutation_in; [|symmetry]; apply sort_perm.
Qed.

(** A window of width 6 never holds more than 6 elements, wherever it
    starts: before the array, inside it or past its end. *)
Lemma slice_window_length (l : list A) (start : Z) :
  (length (slice l start (start + 6)) <= 6)%nat.
Proof.
  unfold slice, relative_index.
  rewrite length_firstn.
  apply Nat.le_trans with (1 := Nat.le_min_l _ _).
  destruct (Z.ltb_spec start 0), (Z.ltb_spec (start + 6) 0); lia.
Qed.

Lemma slice_inside (l : list A) (start : Z) :
  0 <= start <= Z.of_nat (length l) ->
  slice l start (start + 6) = firstn 6 (skipn (Z.to_nat start) l).
Proof.
  intros H. unfold slice, relative_index.
  destruct (Z.ltb_spec start 0), (Z.ltb_spec (start + 6) 0); try lia.
  rewrite (Z.min_l start) by lia.
  destruct (Z.le_ge_cases (start + 6) (Z.of_nat (length l))).
  - rewrite Z.min_l by lia. f_equal. lia.
  - rewrite Z.min_r by lia.
    rewrite !firstn_all2; try reflexivity; rewrite length_skipn; lia.
Qed.

(** Cutting a list into consecutive windows of 6 and gluing them back. *)
Lemma windows_concat (k : nat) : forall (l : list A),
  (length l <= 6 * k)%nat ->
  concat (map (fun j => firstn 6 (skipn (6 * j) l)) (seq 0 k)) = l.
Proof.
  induction k as [|k IH]; intros l Hl.
  - destruct l; [reflexivity | simpl in Hl; lia].
  - cbn [seq map concat]. rewrite <- seq_shift, map_map.
    transitivity (firstn 6 l ++ skipn 6 l); [|apply firstn_skipn].
    f_equal.
    rewrite <- (IH (skipn 6 l)) by (rewrite length_skipn; lia).
    f_equal. apply map_ext. intros j.
    rewrite skipn_skipn. do 2 f_equal. lia.
Qed.

End JsFacts.

(* ===================================================================== *)
(** * Blog listing: filtering and pagination *)
(* ===================================================================== *)

Section BlogFacts.

Import Blog.

Variable toLowerCase : string -> string.

Local Abbreviation getFilteredPosts := (Blog.getFilteredPosts toLowerCase).
Local Abbreviation getPaginatedPosts := (Blog.getPaginatedPosts toLowerCase).
Local Abbreviation getTotalPages := (Blog.getTotalPages toLowerCase).
Local Abbreviation bySearch := (Blog.bySearch toLowerCase).
Local Abbreviation matchesQuery := (Blog.matchesQuery toLowerCase).

Lemma array_includes_In (l : list string) (x : string) :
  array_includes l x = true <-> In x l.
Proof.
  unfold array_includes. rewrite existsb_exists. split.
  - intros (y & Hy & E). apply String.eqb_eq in E. now subst.
  - intros H. exists x. split; [assumption | apply String.eqb_refl].
Qed.

Lemma byCategory_In (m : BlogManager) (l : list Post) (p : Post) :
  In p (byCategory m l) <->
  In p l /\ (currentCategory m = "all" \/ category p = currentCategory m).
Proof.
  unfold byCategory.
  destruct (String.eqb_spec (currentCategory m) "all") as [E|E]; simpl.
  - tauto.
  - rewrite filter_In, String.eqb_eq. tauto.
Qed.

Lemma byTag_In (m : BlogManager) (l : list Post) (p : Post) :
  In p (byTag m l) <->
  In p l /\ (activeTag m = None \/ exists t, activeTag m = Some t /\ In t (tags p)).
Proof.
  unfold byTag. destruct (activeTag m) as [t|].
  - rewrite filter_In, array_includes_In. split.
    + intros [? ?]. eauto.
    + intros [? [?|(t' & E & ?)]]; [discriminate|]. now inversion E; subst.
  - tauto.
Qed.

Lemma bySearch_In (i18n : option string) (m : BlogManager) (l r : list Post) :
  bySearch i18n m l = Return r ->
  forall p, In p r <->
    In p l /\ (searchQuery m = "" \/
               matchesQuery (toLowerCase (searchQuery m)) (getCurrentLang i18n) p
               = Return true).
Proof.
  unfold Blog.bySearch.
  destruct (String.eqb_spec (searchQuery m) "") as [E|E]; simpl; intros H p.
  - inversion H; subst. tauto.
  - rewrite (filterM_In _ _ _ H). tauto.
Qed.

(** What [getFilteredPosts] returns, post by post: the three filters are
    applied one after the other, so they combine by conjunction. *)
Lemma getFilteredPosts_In (i18n : option string) (m : BlogManager) (r : list Post) :
  getFilteredPosts i18n m = Return r ->
  forall p, In p r <->
    In p (posts m)
    /\ (currentCategory m = "all" \/ category p = currentCategory m)
    /\ (activeTag m = None \/ exists t, activeTag m = Some t /\ In t (tags p))
    /\ (searchQuery m = "" \/
        matchesQuery (toLowerCase (searchQuery m)) (getCurrentLang i18n) p
        = Return true).
Proof.
  unfold Blog.getFilteredPosts. intros H p.
  apply bind_Return_inv in H as (f & Hf & H). inversion H; subst; clear H.
  rewrite sort_In, (bySearch_In _ _ _ _ Hf), byTag_In, byCategory_In. tauto.
Qed.

(** Without a search query the result does not depend on the language and
    the call cannot throw. *)
Lemma getFilteredPosts_no_query (i18n : option string) (m : BlogManager) :
  searchQuery m = "" ->
  getFilteredPosts i18n m
  = Return (sort newestFirst (byTag m (byCategory m (posts m)))).
Proof.
  intros E. unfold Blog.getFilteredPosts, Blog.bySearch. now rewrite E.
Qed.

Lemma getFilteredPosts_set_currentPage (i18n : option string) (m : BlogManager) (p : Z) :
  getFilteredPosts i18n (set_currentPage p m) = getFilteredPosts i18n m.
Proof. reflexivity. Qed.

Lemma getPaginatedPosts_eq (i18n : option string) (m : BlogManager) (filtered : list Post) :
  getFilteredPosts i18n m = Return filtered ->
  getPaginatedPosts i18n m
  = Return (slice filtered ((currentPage m - 1) * 6) ((currentPage m - 1) * 6 + 6)).
Proof. intros H. unfold Blog.getPaginatedPosts. now rewrite H. Qed.

Lemma getTotalPages_eq (i18n : option string) (m : BlogManager) (filtered : list Post) :
  getFilteredPosts i18n m = Return filtered ->
  getTotalPages i18n m = Return (ceil_div (Z.of_nat (length filtered)) 6).
Proof. intros H. unfold Blog.getTotalPages. now rewrite H. Qed.

Lemma getTotalPages_inv (i18n : option string) (m : BlogManager) (n : Z) :
  getTotalPages i18n m = Return n ->
  exists filtered, getFilteredPosts i18n m = Return filtered
                   /\ n = ceil_div (Z.of_nat (length filtered)) 6.
Proof.
  unfold Blog.getTotalPages. intros H.
  apply bind_Return_inv in H as (f & Hf & H). inversion H. eauto.
Qed.

Lemma ceil_div_6_bounds (len : Z) :
  0 <= len -> 6 * (ceil_div len 6 - 1) < len + (if len =? 0 then 1 else 0)
              /\ len <= 6 * ceil_div len 6.
Proof.
  intros H. unfold ceil_div.
  pose proof (Z.div_mod (len + 6 - 1) 6 ltac:(lia)).
  pose proof (Z.mod_pos_bound (len + 6 - 1) 6 ltac:(lia)).
  destruct (Z.eqb_spec len 0); lia.
Qed.

(** The pages [from], [from + 1], ... of a fixed filtered list. *)
Lemma pagesFrom_eq (i18n : option string) (m : BlogManager) (filtered : list Post) :
  getFilteredPosts i18n m = Return filtered ->
  forall (count : nat) (from : Z),
  Blog.pagesFrom toLowerCase i18n m from count
  = Return (map (fun j => slice filtered ((from + Z.of_nat j - 1) * 6)
                                         ((from + Z.of_nat j - 1) * 6 + 6))
                (seq 0 count)).
Proof.
  intros Hf. induction count as [|c IH]; intros from; [reflexivity|].
  cbn [Blog.pagesFrom].
  rewrite (getPaginatedPosts_eq i18n (set_currentPage from m) filtered)
    by now rewrite getFilteredPosts_set_currentPage.
  rewrite IH. cbn [mbind completion_bind seq map]. do 2 f_equal.
  - now rewrite Z.add_0_r.
  - rewrite <- seq_shift, map_map. apply map_ext. intros j.
    replace (from + 1 + Z.of_nat j) with (from + Z.of_nat (S j)) by lia.
    reflexivity.
Qed.

(** The call returns whenever every post has a title and an excerpt in the
    current language (and always when no search query is set). *)
Lemma filterM_returns {A} (p : A -> completion bool) (l : list A) :
  (forall x, In x l -> exists b, p x = Return b) ->
  exists r, filterM p l = Return r.
Proof.
  induction l as [|x l IH]; intros Hp; simpl; [eauto|].
  destruct (Hp x (or_introl eq_refl)) as (b & ->).
  destruct IH as (r & ->); [intros y Hy; apply Hp; now right|].
  simpl. eauto.
Qed.

Lemma getFilteredPosts_returns (i18n : option string) (m : BlogManager) :
  (forall post, In post (posts m) ->
     entry (title post) (getCurrentLang i18n) <> None
     /\ entry (excerpt post) (getCurrentLang i18n) <> None) ->
  exists r, getFilteredPosts i18n m = Return r.
Proof.
  intros Hwf. unfold Blog.getFilteredPosts, Blog.bySearch.
  destruct (negb _); [|simpl; eauto].
  match goal with
  | |- context [filterM ?p ?l] => destruct (filterM_returns p l) as (r & ->)
  end; [|simpl; eauto].
  intros post Hpost.
  apply byTag_In in Hpost as [Hpost _].
  apply byCategory_In in Hpost as [Hpost _].
  destruct (Hwf _ Hpost) as [Ht He].
  unfold Blog.matchesQuery, Blog.lowered.
  destruct (entry (title post) _); [|contradiction].
  destruct (entry (excerpt post) _); [|contradiction].
  simpl. eauto.
Qed.

(** C1. Whatever the loaded document and whatever the category, tag, search
    query, page and language, every post [getFilteredPosts] returns has its
    [published] flag set. *)
Theorem getFilteredPosts_only_published
    (data : Dataset) (m : BlogManager) (i18n : option string) (r : list Post) :
  getFilteredPosts i18n (load data m) = Return r ->
  Forall (fun post => published post = true) r.
Proof.
  intros H. apply List.Forall_forall. intros p Hp.
  apply (proj1 (getFilteredPosts_In _ _ _ H p)) in Hp as [Hp _].
  cbn [load posts] in Hp. now apply filter_In in Hp.
Qed.

(** C2. In every filter state where the filtered list exists,
    [getPaginatedPosts] returns at most 6 posts (for any page number, in
    range or not), and the pages 1, 2, ..., [getTotalPages()] glued
    together in order are the filtered list. *)
Theorem pagination_partitions_filtered
    (i18n : option string) (m : BlogManager) (filtered : list Post) :
  getFilteredPosts i18n m = Return filtered ->
  (exists shown, getPaginatedPosts i18n m = Return shown
                 /\ (length shown <= 6)%nat)
  /\ (exists pages, Blog.allPages toLowerCase i18n m = Return pages
                    /\ concat pages = filtered).
Proof.
  intros Hf. split.
  - eexists. split; [apply (getPaginatedPosts_eq _ _ _ Hf)|].
    apply slice_window_length.
  - unfold Blog.allPages. rewrite (getTotalPages_eq _ _ _ Hf).
    cbn [mbind completion_bind]. rewrite (pagesFrom_eq _ _ _ Hf).
    eexists. split; [reflexivity|].
    set (len := Z.of_nat (length filtered)).
    destruct (ceil_div_6_bounds len ltac:(lia)) as [Hlo Hhi].
    assert (0 <= ceil_div len 6)
      by (unfold ceil_div; apply Z.div_pos; lia).
    etransitivity;
      [| apply (windows_concat (Z.to_nat (ceil_div len 6)) filtered);
         unfold len in *; lia].
    f_equal. apply map_ext_in. intros j Hj. apply in_seq in Hj.
    replace ((1 + Z.of_nat j - 1) * 6) with (Z.of_nat (6 * j)) by lia.
    rewrite slice_inside.
    + now rewrite Nat2Z.id.
    + unfold len in *. destruct (Z.eqb_spec (Z.of_nat (length filtered)) 0); lia.
Qed.

End BlogFacts.

Lemma getFilteredPosts_only_published_witness :
  exists r,
    Blog.getFilteredPosts asciiLower (Some "en")
      (Blog.load Blog.sampleData
         (Blog.set_searchQuery "Note" (Blog.set_currentCategory "research"
            Blog.constructor))) = Return r
    /\ map Blog.post_id r = ["6"; "5"; "2"; "1"]
    /\ Forall (fun post => Blog.published post = true) r.
Proof.
  eexists. split; [vm_compute; reflexivity|]. split; [reflexivity|].
  apply (getFilteredPosts_only_published asciiLower Blog.sampleData
           (Blog.set_searchQuery "Note" (Blog.set_currentCategory "research"
              Blog.constructor)) (Some "en")).
  vm_compute. reflexivity.
Defined.

Lemma pagination_partitions_filtered_witness :
  exists pages,
    Blog.allPages asciiLower (Some "en") (Blog.load Blog.sampleData Blog.constructor)
    = Return pages
    /\ map (map Blog.post_id) pages = [["7"; "6"; "5"; "4"; "3"; "2"]; ["1"]].
Proof.
  destruct (pagination_partitions_filtered asciiLower (Some "en")
              (Blog.load Blog.sampleData Blog.constructor)
              (Js.sort Blog.newestFirst
                 (List.filter Blog.published (Blog.data_posts Blog.sampleData))))
    as (_ & pages & Hpages & _).
  - vm_compute. reflexivity.
  - exists pages. split; [exact Hpages|].
    assert (Return pages
            = Blog.allPages asciiLower (Some "en")
                (Blog.load Blog.sampleData Blog.constructor)) as E
      by (symmetry; exact Hpages).
    vm_compute in E. inversion E. reflexivity.
Defined.

(* ===================================================================== *)
(** * Blog listing: the filter handlers *)
(* ===================================================================== *)

Section BlogHandlers.

Import Blog.

Variable toLowerCase : string -> string.

Local Abbreviation getFilteredPosts := (Blog.getFilteredPosts toLowerCase).


End BlogHandlers.



(* ===================================================================== *)
(** * Blog listing: the page number over a run of events *)
(* ===================================================================== *)

Section BlogRuns.

Import Blog.

Variable toLowerCase : string -> string.

Local Abbreviation getFilteredPosts := (Blog.getFilteredPosts toLowerCase).
Local Abbreviation getTotalPages := (Blog.getTotalPages toLowerCase).
Local Abbreviation renderPagination := (Blog.renderPagination toLowerCase).
Local Abbreviation render := (Blog.render toLowerCase).
Local Abbreviation rerender := (Blog.rerender toLowerCase).
Local Abbreviation step := (Blog.step toLowerCase).
Local Abbreviation run := (Blog.run toLowerCase).
Local Abbreviation init := (Blog.init toLowerCase).
Local Abbreviation lowerInv := (Blog.lowerInv).
Local Abbreviation upperInv := (Blog.upperInv toLowerCase).

Lemma numbered_In (b : PageBtn) (count : nat) : forall from,
  In b (numbered from count) ->
  disabled b = false /\ from <= dataPage b < from + Z.of_nat count.
Proof.
  induction count as [|c IH]; intros from; cbn [numbered In]; [tauto|].
  intros [<-|H]; [cbn [disabled dataPage]; split; [reflexivity | lia]|].
  apply IH in H. destruct H. split; [assumption | lia].
Qed.

Lemma renderPagination_eq (i18n : option string) (m : BlogManager) (filtered : list Post) :
  getFilteredPosts i18n m = Return filtered ->
  let n := ceil_div (Z.of_nat (length filtered)) 6 in
  renderPagination i18n m
  = Return (if n <=? 1 then []
            else {| disabled := currentPage m =? 1; dataPage := currentPage m - 1 |}
                 :: numbered 1 (Z.to_nat n)
                 ++ [ {| disabled := currentPage m =? n;
                         dataPage := currentPage m + 1 |} ]).
Proof.
  intros H. unfold Blog.renderPagination.
  now rewrite (getTotalPages_eq _ _ _ _ H).
Qed.

Lemma renderPagination_inv (i18n : option string) (m : BlogManager) (btns : list PageBtn) :
  renderPagination i18n m = Return btns ->
  exists filtered, getFilteredPosts i18n m = Return filtered.
Proof.
  unfold Blog.renderPagination. intros H.
  apply bind_Return_inv in H as (n & Hn & _).
  apply getTotalPages_inv in Hn as (f & Hf & _). eauto.
Qed.

(** The control never offers a page below 1 when the page number is at
    least 1. *)
Lemma renderPagination_enabledFrom1 (i18n : option string) (m : BlogManager) (btns : list PageBtn) :
  1 <= currentPage m ->
  renderPagination i18n m = Return btns ->
  enabledFrom1 btns.
Proof.
  intros Hp H.
  destruct (renderPagination_inv _ _ _ H) as (f & Hf).
  rewrite (renderPagination_eq _ _ _ Hf) in H. inversion H; subst; clear H.
  intros b Hb Hen.
  destruct (_ <=? 1); [contradiction|].
  destruct Hb as [<-|Hb]; simpl in *.
  - apply Z.eqb_neq in Hen. lia.
  - apply in_app_or in Hb as [Hb|[<-|[]]].
    + apply numbered_In in Hb. lia.
    + simpl. lia.
Qed.

(** With the page number in range, every enabled button of the control
    leads to a page in range. *)
Lemma renderPagination_enabled_in_range (i18n : option string) (m : BlogManager)
    (filtered : list Post) (btns : list PageBtn) (b : PageBtn) :
  getFilteredPosts i18n m = Return filtered ->
  renderPagination i18n m = Return btns ->
  currentPage m <= Z.max 1 (ceil_div (Z.of_nat (length filtered)) 6) ->
  In b btns -> disabled b = false ->
  dataPage b <= Z.max 1 (ceil_div (Z.of_nat (length filtered)) 6).
Proof.
  intros Hf H Hp Hb Hen.
  rewrite (renderPagination_eq _ _ _ Hf) in H. inversion H; subst; clear H.
  destruct (Z.leb_spec (ceil_div (Z.of_nat (length filtered)) 6) 1);
    [contradiction|].
  destruct Hb as [<-|Hb]; simpl in *.
  - lia.
  - apply in_app_or in Hb as [Hb|[<-|[]]].
    + apply numbered_In in Hb. lia.
    + simpl in *. apply Z.eqb_neq in Hen. lia.
Qed.

Lemma render_returns (i18n : option string) (m : BlogManager) (filtered : list Post) :
  getFilteredPosts i18n m = Return filtered ->
  exists d, render i18n m = Return d
            /\ renderPagination i18n m = Return (pagination d).
Proof.
  intros Hf. unfold Blog.render, Blog.renderPosts.
  rewrite (getPaginatedPosts_eq _ _ _ _ Hf), (renderPagination_eq _ _ _ Hf).
  eexists. split; reflexivity.
Qed.

Lemma render_pagination (i18n : option string) (m : BlogManager) (d : BlogDom) :
  render i18n m = Return d ->
  renderPagination i18n m = Return (pagination d).
Proof.
  intros H. unfold Blog.render in H.
  apply bind_Return_inv in H as (g & _ & H).
  apply bind_Return_inv in H as (p & Hp & H).
  inversion H; subst. exact Hp.
Qed.

Lemma rerender_manager (st : Page) (m : BlogManager) (i18n : option string) :
  manager (rerender st m i18n) = m /\ i18n_lang (rerender st m i18n) = i18n.
Proof. unfold Blog.rerender. destruct (Blog.render _ _ _); split; reflexivity. Qed.

Lemma rerender_lower (st : Page) (m : BlogManager) (i18n : option string) :
  lowerInv st -> 1 <= currentPage m -> lowerInv (rerender st m i18n).
Proof.
  intros [_ Hb] Hp. unfold Blog.rerender.
  destruct (Blog.render _ _ _) as [d|e] eqn:E; split; simpl; try assumption.
  apply render_pagination in E.
  exact (renderPagination_enabledFrom1 _ _ _ Hp E).
Qed.

Lemma rerender_upper (st : Page) (m : BlogManager) (i18n : option string) :
  (forall filtered, getFilteredPosts i18n m = Return filtered ->
     currentPage m <= Z.max 1 (ceil_div (Z.of_nat (length filtered)) 6)) ->
  upperInv (rerender st m i18n).
Proof.
  intros Hp filtered.
  destruct (rerender_manager st m i18n) as [Em Ei]. rewrite Em, Ei.
  intros Hf. split; [exact (Hp _ Hf)|].
  destruct (render_returns _ _ _ Hf) as (d & Hd & Hpg).
  unfold Blog.rerender. now rewrite Hd.
Qed.

Lemma step_lower (st : Page) (ev : Event) : lowerInv st -> lowerInv (step st ev).
Proof.
  intros Inv. pose proof Inv as [Hp Hb].
  destruct ev as [q|c|t|i|code]; cbn [Blog.step];
    try (destruct (listening st) eqn:L; cbn [negb]; [|exact Inv]).
  - apply rerender_lower; [assumption | reflexivity].
  - apply rerender_lower; [assumption | reflexivity].
  - unfold onTagClick. destruct (String.eqb t ""); [exact Inv|].
    apply rerender_lower; [assumption | reflexivity].
  - destruct (nth_error _ i) as [btn|] eqn:E; [|exact Inv].
    unfold onPaginationClick. destruct (disabled btn) eqn:D; [exact Inv|].
    apply rerender_lower; [assumption|]. cbn.
    apply Hb; [|assumption]. eapply nth_error_In; eassumption.
  - destruct (i18n_lang st); [|exact Inv].
    destruct (recognized code); [|exact Inv].
    destruct (listening st); [now apply rerender_lower|].
    exact Inv.
Qed.

Lemma step_upper (st : Page) (ev : Event) :
  lowerInv st -> upperInv st ->
  match ev with
  | LanguageChange _ => searchQuery (manager st) = ""
  | _ => True
  end ->
  upperInv (step st ev).
Proof.
  intros [Hp Hb] Inv Hq.
  assert (Hone : forall m, currentPage m = 1 ->
            forall filtered : list Post,
              getFilteredPosts (i18n_lang st) m = Return filtered ->
              currentPage m <= Z.max 1 (ceil_div (Z.of_nat (length filtered)) 6))
    by (intros m -> ? _; lia).
  destruct ev as [q|c|t|i|code]; cbn [Blog.step];
    try (destruct (listening st) eqn:L; cbn [negb]; [|exact Inv]).
  - apply rerender_upper, Hone. reflexivity.
  - apply rerender_upper, Hone. reflexivity.
  - unfold onTagClick. destruct (String.eqb t ""); [exact Inv|].
    apply rerender_upper, Hone. reflexivity.
  - destruct (nth_error _ i) as [btn|] eqn:E; [|exact Inv].
    unfold onPaginationClick. destruct (disabled btn) eqn:D; [exact Inv|].
    apply rerender_upper. intros filtered Hf.
    rewrite getFilteredPosts_set_currentPage in Hf.
    destruct (Inv _ Hf) as [Hle Hsync]. cbn.
    eapply renderPagination_enabled_in_range; eauto.
    eapply nth_error_In; eassumption.
  - destruct (i18n_lang st) as [l|] eqn:El; [|exact Inv].
    destruct (recognized code); [|exact Inv].
    pose proof (getFilteredPosts_no_query toLowerCase (Some code) _ Hq) as Hnew.
    pose proof (getFilteredPosts_no_query toLowerCase (i18n_lang st) _ Hq) as Hold.
    destruct (listening st).
    + apply rerender_upper. intros filtered Hf.
      rewrite Hnew in Hf. rewrite <- Hold in Hf. exact (proj1 (Inv _ Hf)).
    + intros filtered. cbn. intros Hf.
      rewrite Hnew in Hf. rewrite <- Hold in Hf.
      destruct (Inv _ Hf) as [Hle Hsync]. split; [assumption|].
      rewrite <- Hsync. unfold Blog.renderPagination, Blog.getTotalPages.
      now rewrite Hnew, Hold.
Qed.

Lemma run_lower (evs : list Event) : forall st,
  lowerInv st -> lowerInv (run st evs).
Proof.
  induction evs as [|ev evs IH]; intros st Inv; [exact Inv|].
  apply IH, step_lower, Inv.
Qed.

Lemma run_upper (evs : list Event) : forall st,
  lowerInv st -> upperInv st ->
  Blog.languageChangesWhileSearching toLowerCase st evs = false ->
  upperInv (run st evs).
Proof.
  induction evs as [|ev evs IH]; intros st Lo Up Hq; [exact Up|].
  cbn [Blog.languageChangesWhileSearching] in Hq.
  apply orb_false_elim in Hq as [Hev Hq].
  apply IH; [now apply step_lower | | exact Hq].
  apply step_upper; try assumption.
  destruct ev; try exact I.
  apply negb_false_iff, String.eqb_eq in Hev. exact Hev.
Qed.

Lemma init_invariants (fetched : option Dataset) (i18n : option string) :
  lowerInv (init fetched i18n) /\ upperInv (init fetched i18n).
Proof.
  assert (forall m, posts m = [] -> currentCategory m = "all" ->
            currentTag m = None -> searchQuery m = "" ->
            getFilteredPosts i18n m = Return []) as Hempty.
  { intros m E1 E2 E3 E4. rewrite getFilteredPosts_no_query by assumption.
    unfold byTag, byCategory, activeTag. now rewrite E1, E2, E3. }
  unfold Blog.init. destruct fetched as [data|].
  - pose proof (getFilteredPosts_no_query toLowerCase i18n
                  (load data constructor) eq_refl) as Hf.
    destruct (render_returns _ _ _ Hf) as (d & Hd & Hpg).
    rewrite Hd. split.
    + split; [cbn; lia|]. cbn.
      apply (renderPagination_enabledFrom1 i18n (load data constructor));
        [cbn; lia | exact Hpg].
    + intros filtered Hf'. cbn in *. split; [lia | exact Hpg].
  - split.
    + split; [cbn; lia|]. intros b [].
    + intros filtered Hf. split; [cbn; lia|].
      cbn [manager i18n_lang dom pagination].
      rewrite (renderPagination_eq _ _ _
                 (Hempty constructor eq_refl eq_refl eq_refl eq_refl)).
      reflexivity.
Qed.

(** No handler assigns [posts]: the listing always works on the published
    posts of the loaded document. *)
Lemma step_posts (st : Page) (ev : Event) :
  posts (manager (step st ev)) = posts (manager st).
Proof.
  assert (forall m i, posts m = posts (manager st) ->
            posts (manager (rerender st m i)) = posts (manager st)) as Hr.
  { intros m i E. now rewrite (proj1 (rerender_manager st m i)). }
  destruct ev as [q|c|t|i|code]; cbn [Blog.step];
    try (destruct (listening st); cbn [negb]; [|reflexivity]).
  - now apply Hr.
  - now apply Hr.
  - unfold onTagClick. destruct (String.eqb t ""); [reflexivity|]. now apply Hr.
  - destruct (nth_error _ i) as [btn|]; [|reflexivity].
    unfold onPaginationClick. destruct (disabled btn); [reflexivity|].
    now apply Hr.
  - destruct (i18n_lang st); [|reflexivity].
    destruct (recognized code); [|reflexivity].
    destruct (listening st); [now apply Hr | reflexivity].
Qed.

Lemma run_posts (evs : list Event) : forall st,
  posts (manager (run st evs)) = posts (manager st).
Proof.
  induction evs as [|ev evs IH]; intros st; [reflexivity|].
  cbn [Blog.run fold_left]. fold (Blog.run toLowerCase (step st ev) evs).
  now rewrite IH, step_posts.
Qed.

(** After any run of events the listing shows published posts only. *)
Lemma listing_only_published_after_run
    (fetched : option Dataset) (i18n : option string) (evs : list Event)
    (r : list Post) :
  let st := run (init fetched i18n) evs in
  getFilteredPosts (i18n_lang st) (manager st) = Return r ->
  Forall (fun post => published post = true) r.
Proof.
  intros st H. apply List.Forall_forall. intros p Hp.
  apply (proj1 (getFilteredPosts_In _ _ _ _ H p)) in Hp as [Hp _].
  unfold st in Hp. rewrite run_posts in Hp.
  unfold Blog.init in Hp. destruct fetched as [data|]; [|destruct Hp].
  destruct (Blog.render _ _ _) in Hp; cbn in Hp; now apply filter_In in Hp.
Qed.

(** The page number never drops below 1, whatever the events. *)
Lemma page_number_from_1 (fetched : option Dataset) (i18n : option string) (evs : list Event) :
  1 <= currentPage (manager (run (init fetched i18n) evs)).
Proof. apply run_lower, init_invariants. Qed.

(** C4, amended. After any run of searches, category, tag and pagination
    clicks, and language changes that arrive while no search query is set,
    the number of pages is the one of the current filtered list, and the
    page number lies between 1 and that number, or is 1 when the filtered
    list is empty. *)
Theorem page_number_in_range
    (fetched : option Dataset) (i18n : option string) (evs : list Event) (n : Z) :
  let st := run (init fetched i18n) evs in
  Blog.languageChangesWhileSearching toLowerCase (init fetched i18n) evs = false ->
  getTotalPages (i18n_lang st) (manager st) = Return n ->
  (exists filtered,
      getFilteredPosts (i18n_lang st) (manager st) = Return filtered
      /\ n = ceil_div (Z.of_nat (length filtered)) postsPerPage)
  /\ 1 <= currentPage (manager st) <= Z.max 1 n.
Proof.
  intros st Hq Hn.
  destruct (init_invariants fetched i18n) as [Lo Up].
  pose proof (run_lower evs _ Lo) as [Hlo _].
  pose proof (run_upper evs _ Lo Up Hq) as Hup.
  destruct (getTotalPages_inv _ _ _ _ Hn) as (filtered & Hf & ->).
  split; [eauto|]. split; [exact Hlo|]. exact (proj1 (Hup _ Hf)).
Qed.

End BlogRuns.

Lemma page_number_in_range_witness :
  1 <= Blog.currentPage
         (Blog.manager
            (Blog.run asciiLower Blog.samplePage
               [ Blog.SearchInput "note"; Blog.PaginationClick 2;
                 Blog.TagClick "rocq"; Blog.CategoryClick "research";
                 Blog.SearchInput ""; Blog.LanguageChange "pt";
                 Blog.PaginationClick 1 ]))
    <= Z.max 1 1.
Proof.
  apply (page_number_in_range asciiLower (Some Blog.sampleData) (Some "en") _ 1).
  - vm_compute. reflexivity.
  - vm_compute. reflexivity.
Defined.

(** C4, as the claim states it, fails in two ways. A search that matches
    nothing leaves page 1 of 0 pages. And on page 2 of a search with seven
    English matches, switching to Portuguese (three matches, one page)
    re-renders with the page number still 2. *)
Lemma page_number_out_of_range :
  (let st := Blog.run asciiLower Blog.samplePage [Blog.SearchInput "zebra"] in
   Blog.currentPage (Blog.manager st) = 1
   /\ Blog.getTotalPages asciiLower (Blog.i18n_lang st) (Blog.manager st) = Return 0)
  /\
  (let st := Blog.run asciiLower Blog.samplePage
               [Blog.SearchInput "note"; Blog.PaginationClick 2;
                Blog.LanguageChange "pt"] in
   Blog.currentPage (Blog.manager st) = 2
   /\ Blog.getTotalPages asciiLower (Blog.i18n_lang st) (Blog.manager st) = Return 1
   /\ Blog.grid (Blog.dom st) = Blog.EmptyState "Nenhum post encontrado").
Proof. vm_compute. repeat split. Qed.

(* ===================================================================== *)
(** * Localization store: [translate] *)
(* ===================================================================== *)

Section Translate.

Import I18n.

Lemma split_dot_nonempty (s : string) : split_dot s <> [].
Proof.
  destruct s as [|c s]; simpl; [discriminate|].
  destruct (Ascii.eqb c "."); [discriminate|].
  destruct (split_dot s); discriminate.
Qed.

(** The loop never reads a member of [undefined], [null], a string or a
    function: it returns, from whatever value it starts. *)
Lemma descend_returns (keys : list string) : forall value,
  exists found, descend value keys = Return found.
Proof.
  induction keys as [|k keys IH]; intros value; simpl; [eauto|].
  destruct value; simpl; eauto.
  destruct (String.eqb s ""); simpl; eauto.
Qed.

(** A value found by the loop and then replaced by the key when falsy is
    never the empty string, unless the key is. *)
Lemma orKey_empty (key : string) (found : option Value) :
  orKey key found = VString "" -> key = "".
Proof.
  destruct found as [[]|]; simpl; try discriminate; try congruence.
  destruct (String.eqb_spec s ""); simpl; congruence.
Qed.

Lemma translate_eq (st : Store) (key : string) :
  translate st key
  = (found ← descend (match own (translations st) (currentLang st) with
                      | Some t => ofTable t
                      | None =>
                          if String.eqb (currentLang st) "__proto__"
                          then VObjectPrototype
                          else if inherited (currentLang st)
                               then VBuiltin (currentLang st)
                               else VUndefined
                      end) (split_dot key);
     Return (orKey key found)).
Proof. reflexivity. Qed.

(** Along a path of own entries the loop finds the entry. *)
Lemma descend_ownPath (keys : list string) : forall o t,
  ownPath o keys = Some t ->
  descend (VObject o) keys = Return (Some (ofTable t)).
Proof.
  induction keys as [|k keys IH]; intros o t; simpl.
  - intros H. inversion H. reflexivity.
  - destruct (own o k) as [[s|o']|]; try discriminate.
    + destruct keys; [|discriminate]. intros H. inversion H. reflexivity.
    + apply IH.
Qed.

Lemma inherited_false_proto (k : string) :
  inherited k = false -> String.eqb k "__proto__" = false.
Proof. unfold inherited. intros H. now apply orb_false_elim in H. Qed.

(** From a value that is not an object of the table, plain segments lead
    nowhere. *)
Lemma descend_off_table (keys : list string) (value : Value) :
  (forall o, value <> VObject o) ->
  keys <> [] -> plain keys ->
  exists found, descend value keys = Return found
                /\ (found = None \/ found = Some VUndefined).
Proof.
  intros Hv Hne Hplain. destruct keys as [|k keys]; [contradiction|].
  inversion Hplain as [|? ? Hk Hrest]; subst.
  pose proof (inherited_false_proto _ Hk) as Hp.
  assert (exists found, descend VUndefined keys = Return found
                        /\ (found = None \/ found = Some VUndefined)) as Hu
    by (destruct keys; simpl; eauto).
  destruct value; simpl; eauto.
  - destruct (String.eqb s ""); simpl; eauto.
  - now destruct (Hv o).
  - rewrite Hp, Hk. exact Hu.
Qed.

(** Where the path through own entries breaks, plain segments end in
    [undefined] or leave the loop early. *)
Lemma descend_missing (keys : list string) : forall o,
  ownPath o keys = None -> plain keys ->
  exists found, descend (VObject o) keys = Return found
                /\ (found = None \/ found = Some VUndefined).
Proof.
  induction keys as [|k keys IH]; intros o; simpl; [discriminate|].
  intros Hpath Hplain. inversion Hplain as [|? ? Hk Hrest]; subst.
  rewrite (inherited_false_proto _ Hk), Hk.
  destruct (own o k) as [[s|o']|]; simpl.
  - destruct keys as [|k' keys]; [discriminate|]. simpl.
    destruct (String.eqb s ""); simpl; eauto.
  - now apply IH.
  - destruct keys; simpl; eauto.
Qed.

(** A key whose path is missing from the table, and whose segments are
    plain, comes back unchanged. *)
Lemma translate_missing (st : Store) (key : string) :
  resolved st key = None -> plain (split_dot key) ->
  translate st key = Return (VString key).
Proof.
  intros Hres Hplain. rewrite translate_eq. unfold resolved in Hres.
  cbn [ownPath] in Hres.
  assert (exists found,
            descend (match own (translations st) (currentLang st) with
                     | Some t => ofTable t
                     | None =>
                         if String.eqb (currentLang st) "__proto__"
                         then VObjectPrototype
                         else if inherited (currentLang st)
                              then VBuiltin (currentLang st)
                              else VUndefined
                     end) (split_dot key) = Return found
            /\ (found = None \/ found = Some VUndefined))
    as (found & -> & Hfound).
  { pose proof (split_dot_nonempty key) as Hne.
    destruct (own (translations st) (currentLang st)) as [[s|o]|].
    - apply descend_off_table; [discriminate | assumption | assumption].
    - now apply descend_missing.
    - apply descend_off_table; [|assumption|assumption].
      intros o. destruct (String.eqb _ "__proto__"); [discriminate|].
      destruct (inherited _); discriminate. }
  destruct Hfound as [-> | ->]; reflexivity.
Qed.

(** A key whose path exists yields the entry there, or the key itself when
    the entry is the empty text. *)
Lemma translate_resolved (st : Store) (key : string) (t : Table) :
  resolved st key = Some t ->
  translate st key
  = Return (if truthy (ofTable t) then ofTable t else VString key).
Proof.
  intros Hres. rewrite translate_eq. unfold resolved in Hres.
  cbn [ownPath] in Hres.
  destruct (own (translations st) (currentLang st)) as [[s|o]|];
    try discriminate.
  - pose proof (split_dot_nonempty key).
    destruct (split_dot key); [contradiction | discriminate].
  - cbn [ofTable]. now rewrite (descend_ownPath _ _ _ Hres).
Qed.

(** [translate] returns for every key. *)
Lemma translate_returns (st : Store) (key : string) :
  exists value, translate st key = Return value.
Proof.
  rewrite translate_eq.
  match goal with
  | |- context [descend ?v ?ks] =>
      destruct (descend_returns ks v) as (found & ->)
  end.
  simpl. eauto.
Qed.

(** The result is the empty string only for the empty key. *)
Lemma translate_nonempty (st : Store) (key : string) :
  key <> "" -> translate st key <> Return (VString "").
Proof.
  intros Hkey. rewrite translate_eq. intros H.
  apply bind_Return_inv in H as (found & _ & H).
  inversion H as [E]. now apply orKey_empty in E.
Qed.

(** C5, amended. For every key, [translate] returns (it does not throw).
    A key that names an entry of the current language's table yields that
    entry. A key with a missing segment comes back unchanged, provided no
    segment is the name of a member of [Object.prototype]. The result is
    the empty string only for the empty key. *)
Theorem translate_resolves_or_returns_key (st : Store) (key : string) :
  (exists value, translate st key = Return value)
  /\ (forall t, resolved st key = Some t ->
        translate st key
        = Return (if truthy (ofTable t) then ofTable t else VString key))
  /\ (resolved st key = None -> plain (split_dot key) ->
        translate st key = Return (VString key))
  /\ (key <> "" -> translate st key <> Return (VString "")).
Proof.
  split; [|split; [|split]].
  - apply translate_returns.
  - apply translate_resolved.
  - apply translate_missing.
  - apply translate_nonempty.
Qed.

(** C6, amended. A string that names no entry of the current language's
    table, and none of whose segments is the name of a member of
    [Object.prototype], is returned unchanged; translating the result
    again changes nothing. *)
Theorem translate_idempotent_on_literals (st : Store) (s : string) :
  resolved st s = None -> plain (split_dot s) ->
  translate st s = Return (VString s)
  /\ (v ← translate st s;
      match v with
      | VString s' => translate st s'
      | _ => Return v
      end) = Return (VString s).
Proof.
  intros Hres Hplain.
  pose proof (translate_missing st s Hres Hplain) as H.
  split; [exact H|]. rewrite H. simpl. exact H.
Qed.

End Translate.

Lemma translate_resolves_or_returns_key_witness :
  I18n.translate I18n.sampleStore "nav.home" = Return (I18n.VString "Home")
  /\ I18n.translate I18n.sampleStore "nav.about" = Return (I18n.VString "nav.about")
  /\ I18n.translate I18n.sampleStore "draft" = Return (I18n.VString "draft")
  /\ I18n.translate I18n.sampleStore "nav.home" <> Return (I18n.VString "").
Proof.
  pose proof (translate_resolves_or_returns_key I18n.sampleStore "nav.home")
    as (_ & Hfound & _ & Hnonempty).
  pose proof (translate_resolves_or_returns_key I18n.sampleStore "nav.about")
    as (_ & _ & Hmissing & _).
  pose proof (translate_resolves_or_returns_key I18n.sampleStore "draft")
    as (_ & Hdraft & _ & _).
  split; [|split; [|split]].
  - apply (Hfound (I18n.Text "Home")). reflexivity.
  - apply Hmissing; [reflexivity | vm_compute; repeat constructor].
  - apply (Hdraft (I18n.Text "")). reflexivity.
  - apply Hnonempty. discriminate.
Defined.

(** C5, as the claim states it, fails twice. The empty key comes back as
    the empty string. And ["constructor"], which names no entry of the
    table, does not come back unchanged: the table object inherits a member
    of that name. *)
Lemma translate_empty_and_inherited :
  I18n.translate I18n.sampleStore "" = Return (I18n.VString "")
  /\ I18n.resolved I18n.sampleStore "constructor" = None
  /\ I18n.translate I18n.sampleStore "constructor"
     = Return (I18n.VBuiltin "constructor").
Proof. vm_compute. repeat split. Qed.

Lemma translate_idempotent_on_literals_witness :
  I18n.translate I18n.sampleStore "Read more" = Return (I18n.VString "Read more").
Proof.
  apply (translate_idempotent_on_literals I18n.sampleStore "Read more").
  - reflexivity.
  - vm_compute. repeat constructor.
Defined.

(** C6, as the claim states it, fails: ["nav.toString"] matches no key path
    of the table and is not returned unchanged. *)
Lemma translate_literal_changed :
  I18n.resolved I18n.sampleStore "nav.toString" = None
  /\ I18n.translate I18n.sampleStore "nav.toString"
     = Return (I18n.VBuiltin "toString").
Proof. vm_compute. repeat split. Qed.

(* ===================================================================== *)
(** * Localization store: [setLanguage] *)
(* ===================================================================== *)

Section SetLanguage.

Import I18n.

Lemma mapM_returns {A B} (f : A -> completion B) (l : list A) :
  (forall x, exists y, f x = Return y) ->
  exists ys, mapM f l = Return ys /\ length ys = length l.
Proof.
  intros Hf. induction l as [|x l (ys & IH & Hlen)]; simpl; [eauto|].
  destruct (Hf x) as (y & ->). rewrite IH. simpl.
  eexists. split; [reflexivity|]. simpl. now rewrite Hlen.
Qed.

(** The sweep over the tagged elements always completes. *)
Lemma applyTranslations_returns (st : Store) :
  exists doc, applyTranslations st = Return doc
              /\ documentLang doc = currentLang st
              /\ langButtons doc = langButtons (document st).
Proof.
  unfold applyTranslations.
  match goal with
  | |- context [mapM ?f (tagged _)] =>
      destruct (mapM_returns f (tagged (document st))) as (els & -> & _)
  end.
  { intros el. destruct (translate_returns st (dataI18n el)) as (v & ->).
    simpl. eauto. }
  match goal with
  | |- context [mapM ?f (titled _)] =>
      destruct (mapM_returns f (titled (document st))) as (tls & -> & _)
  end.
  { intros el. destruct (translate_returns st (dataI18nTitle el)) as (v & ->).
    simpl. eauto. }
  simpl. eauto.
Qed.

(** C7. With a code other than "en" and "pt", [setLanguage] returns and
    leaves the store, local storage, the observer list, the document and
    the record of callback invocations as they were. *)
Theorem setLanguage_unrecognized_is_noop (st : Store) (lang : string) :
  lang <> "en" -> lang <> "pt" -> setLanguage st lang = Return st.
Proof.
  intros Hen Hpt. unfold setLanguage.
  apply String.eqb_neq in Hen, Hpt. now rewrite Hen, Hpt.
Qed.


End SetLanguage.

Lemma setLanguage_unrecognized_is_noop_witness :
  I18n.setLanguage I18n.sampleStore "fr" = Return I18n.sampleStore.
Proof.
  apply (setLanguage_unrecognized_is_noop I18n.sampleStore "fr"); discriminate.
Defined.


(** On the sample store the repeated selection of English adds two
    invocations, one per subscriber. *)
Example setLanguage_sample_calls :
  (st' ← I18n.setLanguage I18n.sampleStore "en"; Return (I18n.calls st'))
  = Return [(0%nat, "en"); (1%nat, "en")].
Proof. vm_compute. reflexivity. Qed.

(* ===================================================================== *)
(** * Numbers: reading numerals with [parseInt] *)
(* ===================================================================== *)

Section NumberFacts.

Import JsNumber.

Local Open Scope float_scope.












End NumberFacts.

(* ===================================================================== *)
(** * Theme store *)
(* ===================================================================== *)

Section ThemeFacts.

Import JsNumber Theme.

Local Open Scope float_scope.

(** C8. Each of the eight preset hues, sent through [hslToHex] at
    saturation 70 and lightness 50 and back through [hexToHsl], comes out
    within one degree of itself. *)
Theorem preset_hues_round_trip :
  map (fun kp => hue (snd kp)) presets = [220; 150; 25; 270; 350; 195; 45; 215]
  /\ Forall (fun kp =>
               let h := hue (snd kp) in
               (abs (hsl_h (hexToHsl (hslToHex h 70 50)) - h) <=? 1) = true)
            presets.
Proof.
  split; [reflexivity|].
  unfold presets. repeat constructor; vm_compute; reflexivity.
Qed.

(** The round trip is in fact exact on the presets, and gives back the
    saturation and lightness as well. *)
Lemma preset_hues_round_trip_exact :
  map (fun kp => hexToHsl (hslToHex (hue (snd kp)) 70 50)) presets
  = map (fun kp => {| hsl_h := hue (snd kp); hsl_s := 70; hsl_l := 50 |}) presets.
Proof. vm_compute. reflexivity. Qed.


End ThemeFacts.



(* ===================================================================== *)
(** * Blog listing: order, search and page sizes *)
(* ===================================================================== *)

Section BlogListing.

Import Blog BlogOrder.

Variable toLowerCase : string -> string.

Local Abbreviation getFilteredPosts := (Blog.getFilteredPosts toLowerCase).
Local Abbreviation getPaginatedPosts := (Blog.getPaginatedPosts toLowerCase).
Local Abbreviation getTotalPages := (Blog.getTotalPages toLowerCase).
Local Abbreviation renderPagination := (Blog.renderPagination toLowerCase).
Local Abbreviation bySearch := (Blog.bySearch toLowerCase).
Local Abbreviation matchesQuery := (Blog.matchesQuery toLowerCase).

Lemma insert_newestFirst_In (x y : Post) (l : list Post) :
  In y (insert_sorted newestFirst x l) <-> y = x \/ In y l.
Proof.
  split; intros H.
  - apply (Permutation_in _ (insert_sorted_perm newestFirst x l)) in H.
    destruct H as [<-|H]; auto.
  - apply (Permutation_in _ (Permutation_sym (insert_sorted_perm newestFirst x l))).
    destruct H as [->|H]; [now left | now right].
Qed.

Lemma insert_newestFirst_sorted (x : Post) (l : list Post) :
  newestFirstOrder l -> newestFirstOrder (insert_sorted newestFirst x l).
Proof.
  unfold newestFirstOrder. induction 1 as [|y l Hl IH Hy]; simpl.
  - repeat constructor.
  - unfold newestFirst at 1. destruct (Z.leb_spec (date y - date x) 0) as [Hle|Hgt].
    + constructor; [now constructor|].
      constructor; [lia|].
      apply List.Forall_forall. intros z Hz.
      pose proof (proj1 (List.Forall_forall _ _) Hy z Hz) as Hzy.
      simpl in Hzy. lia.
    + constructor; [exact IH|].
      apply List.Forall_forall. intros z Hz.
      apply insert_newestFirst_In in Hz as [->|Hz]; [lia|].
      exact (proj1 (List.Forall_forall _ _) Hy z Hz).
Qed.

Lemma sort_newestFirst_sorted (l : list Post) :
  newestFirstOrder (sort newestFirst l).
Proof.
  induction l as [|x l IH]; simpl; [constructor|].
  now apply insert_newestFirst_sorted.
Qed.

(** Inserting a post never overtakes a post of the same date. *)
Lemma insert_newestFirst_datedOn (d : Z) (x : Post) (l : list Post) :
  datedOn d (insert_sorted newestFirst x l) = datedOn d (x :: l).
Proof.
  unfold datedOn. induction l as [|y l IH]; [reflexivity|].
  cbn [insert_sorted]. unfold newestFirst at 1.
  destruct (Z.leb_spec (date y - date x) 0) as [Hle|Hgt]; [reflexivity|].
  cbn [List.filter] in *. rewrite IH.
  destruct (Z.eqb_spec (date y) d), (Z.eqb_spec (date x) d);
    try reflexivity; lia.
Qed.

Lemma sort_newestFirst_datedOn (d : Z) (l : list Post) :
  datedOn d (sort newestFirst l) = datedOn d l.
Proof.
  induction l as [|x l IH]; [reflexivity|].
  cbn [sort fold_right]. fold (sort newestFirst l).
  rewrite insert_newestFirst_datedOn. unfold datedOn in *.
  cbn [List.filter]. now rewrite IH.
Qed.

Lemma filter_sublist {A} (p : A -> bool) (l : list A) :
  sublist (List.filter p l) l.
Proof.
  induction l as [|x l IH]; simpl; [constructor|].
  destruct (p x); now constructor.
Qed.

Lemma filterM_sublist {A} (p : A -> completion bool) (l r : list A) :
  filterM p l = Return r -> sublist r l.
Proof.
  revert r. induction l as [|x l IH]; simpl; intros r H.
  - inversion H. constructor.
  - apply bind_Return_inv in H as (b & _ & H).
    apply bind_Return_inv in H as (r' & Hr' & H).
    inversion H; subst. destruct b; constructor; now apply IH.
Qed.

(** The list handed to [sort]: the posts that pass the filters, in the
    order of [posts]. *)
Lemma getFilteredPosts_inv (i18n : option string) (m : BlogManager) (r : list Post) :
  getFilteredPosts i18n m = Return r ->
  exists f, bySearch i18n m (byTag m (byCategory m (posts m))) = Return f
            /\ r = sort newestFirst f
            /\ sublist f (posts m).
Proof.
  unfold Blog.getFilteredPosts. intros H.
  apply bind_Return_inv in H as (f & Hf & H). inversion H; subst.
  exists f. split; [exact Hf|]. split; [reflexivity|].
  assert (sublist (byTag m (byCategory m (posts m))) (posts m)) as Hs.
  { transitivity (byCategory m (posts m)).
    - unfold byTag. destruct (activeTag m); [apply filter_sublist | reflexivity].
    - unfold byCategory. destruct (negb _); [apply filter_sublist | reflexivity]. }
  unfold Blog.bySearch in Hf. destruct (negb _).
  - apply filterM_sublist in Hf. now transitivity (byTag m (byCategory m (posts m))).
  - inversion Hf; subst. exact Hs.
Qed.

(** X1. The posts [getFilteredPosts] returns are in date order, newest
    first: no post comes before a newer one. *)
Theorem getFilteredPosts_newest_first
    (i18n : option string) (m : BlogManager) (r : list Post) :
  getFilteredPosts i18n m = Return r -> newestFirstOrder r.
Proof.
  intros H. apply getFilteredPosts_inv in H as (f & _ & -> & _).
  apply sort_newestFirst_sorted.
Qed.

(** X2. The sort is stable: posts that share a date come out in the order
    they have in the loaded document. Precisely, the listing is a
    rearrangement of a sublist [f] of [posts], and for every date the posts
    of that date are listed in the order they have in [f]. *)
Theorem getFilteredPosts_keeps_order_of_equal_dates
    (i18n : option string) (m : BlogManager) (r : list Post) :
  getFilteredPosts i18n m = Return r ->
  exists f, sublist f (posts m)
            /\ Permutation r f
            /\ forall d, datedOn d r = datedOn d f.
Proof.
  intros H. apply getFilteredPosts_inv in H as (f & _ & -> & Hs).
  exists f. split; [exact Hs|]. split; [apply sort_perm|].
  intros d. apply sort_newestFirst_datedOn.
Qed.

(** X3. With a search query set, every listed post has the lower-cased
    query inside its lower-cased title or excerpt of the current
    language, and every post of the category and tag selection that has it
    is listed. *)
Theorem search_lists_exactly_the_matches
    (i18n : option string) (m : BlogManager) (r : list Post) :
  searchQuery m <> "" ->
  getFilteredPosts i18n m = Return r ->
  forall post,
    In post r <->
    In post (byTag m (byCategory m (posts m)))
    /\ exists t e,
         entry (title post) (getCurrentLang i18n) = Some t
         /\ entry (excerpt post) (getCurrentLang i18n) = Some e
         /\ (includes (toLowerCase t) (toLowerCase (searchQuery m))
             || includes (toLowerCase e) (toLowerCase (searchQuery m))) = true.
Proof.
  intros Hq H post.
  apply getFilteredPosts_inv in H as (f & Hf & -> & _).
  rewrite sort_In, (bySearch_In _ _ _ _ _ Hf).
  assert (matchesQuery (toLowerCase (searchQuery m)) (getCurrentLang i18n) post
          = Return true
          <-> exists t e,
                entry (title post) (getCurrentLang i18n) = Some t
                /\ entry (excerpt post) (getCurrentLang i18n) = Some e
                /\ (includes (toLowerCase t) (toLowerCase (searchQuery m))
                    || includes (toLowerCase e) (toLowerCase (searchQuery m)))
                   = true) as E.
  { unfold Blog.matchesQuery, Blog.lowered.
    destruct (entry (title post) _) as [t|]; simpl.
    - destruct (entry (excerpt post) _) as [e|]; simpl.
      + split.
        * intros Hm. inversion Hm as [Hb]. exists t, e. now rewrite Hb.
        * intros (t' & e' & Ht & He & Hb). inversion Ht; inversion He; subst.
          now rewrite Hb.
      + split; [discriminate|]. intros (? & ? & _ & ? & _). discriminate.
    - split; [discriminate|]. intros (? & ? & ? & _). discriminate. }
  rewrite E. split.
  - intros [Hin [Hempty|Hm]]; [contradiction | auto].
  - intros [Hin Hm]. auto.
Qed.

(** X4. Every page but the last holds exactly 6 posts, the last page holds
    the remaining 1 to 6, and a page number past the last gives no post. *)
Theorem page_sizes
    (i18n : option string) (m : BlogManager) (filtered : list Post) :
  getFilteredPosts i18n m = Return filtered ->
  let total := ceil_div (Z.of_nat (length filtered)) 6 in
  exists shown,
    getPaginatedPosts i18n m = Return shown
    /\ (1 <= currentPage m < total -> length shown = 6%nat)
    /\ (1 <= currentPage m /\ currentPage m = total ->
        Z.of_nat (length shown) = Z.of_nat (length filtered) - 6 * (total - 1)
        /\ (1 <= length shown <= 6)%nat)
    /\ (total < currentPage m -> shown = []).
Proof.
  intros Hf. cbv zeta.
  eexists. split; [apply (getPaginatedPosts_eq _ _ _ _ Hf)|].
  set (len := Z.of_nat (length filtered)).
  set (total := ceil_div len 6).
  destruct (ceil_div_6_bounds len ltac:(lia)) as [Hlo Hhi]. fold total in Hlo, Hhi.
  assert (0 <= len) as Hlen0 by (unfold len; lia).
  assert (0 <= total) as Htot0
    by (unfold total, ceil_div; apply Z.div_pos; lia).
  assert (len = 0 -> total <= 0) as Hzero.
  { intros E. unfold total. rewrite E. reflexivity. }
  assert (len <> 0 -> 6 * (total - 1) < len) as Hpos.
  { intros E. revert Hlo. destruct (Z.eqb_spec len 0); [contradiction | lia]. }
  assert (forall p, 1 <= p <= total ->
            length (slice filtered ((p - 1) * 6) ((p - 1) * 6 + 6))
            = Nat.min 6 (length filtered - Z.to_nat ((p - 1) * 6))) as Hlen.
  { intros p Hp. rewrite slice_inside.
    - now rewrite length_firstn, length_skipn.
    - fold len. clearbody total len. lia. }
  split; [|split].
  - intros Hp. rewrite Hlen by lia.
    assert (Z.of_nat (length filtered) = len) as Elen by reflexivity.
    clearbody total len. lia.
  - intros [Hp Ht]. rewrite Hlen by lia.
    assert (Z.of_nat (length filtered) = len) as Elen by reflexivity.
    clearbody total len. lia.
  - intros Hp. unfold slice, relative_index.
    destruct (Z.ltb_spec ((currentPage m - 1) * 6) 0); [lia|].
    destruct (Z.ltb_spec ((currentPage m - 1) * 6 + 6) 0); [lia|].
    fold len. rewrite !Z.min_r by (clearbody total len; lia).
    replace (Z.to_nat (len - len)) with 0%nat by lia. reflexivity.
Qed.

Lemma numbered_length (count : nat) : forall from,
  length (numbered from count) = count.
Proof. induction count; intros from; simpl; [reflexivity | now rewrite IHcount]. Qed.

Lemma numbered_nth (count : nat) : forall from j,
  (j < count)%nat ->
  nth_error (numbered from count) j
  = Some {| disabled := false; dataPage := from + Z.of_nat j |}.
Proof.
  induction count as [|c IH]; intros from j Hj; [lia|].
  destruct j as [|j]; cbn [numbered nth_error].
  - now rewrite Z.add_0_r.
  - rewrite IH by lia. do 2 f_equal. lia.
Qed.

Lemma ceil_div_6_le_1 (len : Z) : 0 <= len -> (ceil_div len 6 <= 1 <-> len <= 6).
Proof.
  intros H. unfold ceil_div.
  pose proof (Z.div_mod (len + 6 - 1) 6 ltac:(lia)).
  pose proof (Z.mod_pos_bound (len + 6 - 1) 6 ltac:(lia)). lia.
Qed.

(** The two ends of a pagination control that is shown. *)
Lemma renderPagination_ends
    (i18n : option string) (m : BlogManager) (filtered : list Post)
    (btns : list PageBtn) :
  getFilteredPosts i18n m = Return filtered ->
  renderPagination i18n m = Return btns ->
  (6 < length filtered)%nat ->
  let total := ceil_div (Z.of_nat (length filtered)) 6 in
  nth_error btns 0
  = Some {| disabled := currentPage m =? 1; dataPage := currentPage m - 1 |}
  /\ nth_error btns (Z.to_nat (total + 1))
     = Some {| disabled := currentPage m =? total; dataPage := currentPage m + 1 |}.
Proof.
  intros Hf Hb Hlen. cbv zeta.
  rewrite (renderPagination_eq _ _ _ _ Hf) in Hb. cbv zeta in Hb.
  set (total := ceil_div (Z.of_nat (length filtered)) 6) in *.
  pose proof (ceil_div_6_le_1 (Z.of_nat (length filtered)) ltac:(lia)) as Hle.
  fold total in Hle.
  inversion Hb as [E]; clear Hb. clear E.
  destruct (Z.leb_spec total 1) as [H1|H1]; [lia|].
  split; [reflexivity|].
  replace (Z.to_nat (total + 1)) with (S (Z.to_nat total)) by lia.
  cbn [nth_error]. rewrite nth_error_app2 by (rewrite numbered_length; lia).
  rewrite numbered_length, Nat.sub_diag. reflexivity.
Qed.

(** X5. The pagination control is empty exactly when the filtered list has
    at most 6 posts; otherwise it holds a previous button, one button per
    page and a next button, the previous one disabled exactly on page 1 and
    the next one exactly on the last page. *)
Theorem pagination_control_shape
    (i18n : option string) (m : BlogManager) (filtered : list Post)
    (btns : list PageBtn) :
  getFilteredPosts i18n m = Return filtered ->
  renderPagination i18n m = Return btns ->
  let total := ceil_div (Z.of_nat (length filtered)) 6 in
  (btns = [] <-> (length filtered <= 6)%nat)
  /\ ((6 < length filtered)%nat ->
      Z.of_nat (length btns) = total + 2
      /\ (exists prev, nth_error btns 0 = Some prev
            /\ dataPage prev = currentPage m - 1
            /\ (disabled prev = true <-> currentPage m = 1))
      /\ (exists next, nth_error btns (Z.to_nat (total + 1)) = Some next
            /\ dataPage next = currentPage m + 1
            /\ (disabled next = true <-> currentPage m = total))
      /\ (forall k, 1 <= k <= total ->
            nth_error btns (Z.to_nat k)
            = Some {| disabled := false; dataPage := k |})).
Proof.
  intros Hf Hb. cbv zeta.
  pose proof (renderPagination_ends _ _ _ _ Hf Hb) as Hends. cbv zeta in Hends.
  rewrite (renderPagination_eq _ _ _ _ Hf) in Hb. cbv zeta in Hb.
  set (total := ceil_div (Z.of_nat (length filtered)) 6) in *.
  pose proof (ceil_div_6_le_1 (Z.of_nat (length filtered)) ltac:(lia)) as Hle.
  fold total in Hle.
  inversion Hb as [E]; clear Hb. rewrite <- E in Hends. clear E.
  destruct (Z.leb_spec total 1) as [H1|H1].
  - split; [split; [lia | reflexivity]|]. lia.
  - split; [split; [discriminate | lia]|]. intros Hlen.
    destruct (Hends Hlen) as [Hprev Hnext].
    assert (length (numbered 1 (Z.to_nat total)) = Z.to_nat total) as Hn
      by apply numbered_length.
    split; [|split; [|split]].
    + cbn [length]. rewrite length_app, Hn. cbn [length]. lia.
    + eexists. split; [exact Hprev|]. split; [reflexivity|]. cbn. apply Z.eqb_eq.
    + eexists. split; [exact Hnext|]. split; [reflexivity|]. cbn. apply Z.eqb_eq.
    + intros k Hk.
      replace (Z.to_nat k) with (S (Z.to_nat (k - 1))) by lia.
      cbn [nth_error]. rewrite nth_error_app1 by lia.
      rewrite numbered_nth by lia. do 2 f_equal. lia.
Qed.

End BlogListing.

(* ===================================================================== *)
(** * Blog listing: paging back and forth, and a failed load *)
(* ===================================================================== *)

Section BlogPaging.

Import Blog.

Variable toLowerCase : string -> string.

Local Abbreviation getFilteredPosts := (Blog.getFilteredPosts toLowerCase).
Local Abbreviation renderPagination := (Blog.renderPagination toLowerCase).
Local Abbreviation rerender := (Blog.rerender toLowerCase).
Local Abbreviation step := (Blog.step toLowerCase).
Local Abbreviation run := (Blog.run toLowerCase).
Local Abbreviation init := (Blog.init toLowerCase).

Lemma rerender_in_sync (st : Page) (m : BlogManager) (i18n : option string)
    (filtered : list Post) :
  getFilteredPosts i18n m = Return filtered ->
  manager (rerender st m i18n) = m
  /\ i18n_lang (rerender st m i18n) = i18n
  /\ listening (rerender st m i18n) = listening st
  /\ renderPagination i18n m = Return (pagination (dom (rerender st m i18n))).
Proof.
  intros Hf. destruct (render_returns toLowerCase _ _ _ Hf) as (d & Hd & Hp).
  unfold Blog.rerender. rewrite Hd. repeat split. exact Hp.
Qed.

Lemma set_currentPage_back (m : BlogManager) (p : Z) :
  set_currentPage (currentPage m) (set_currentPage p m) = m.
Proof. destruct m. reflexivity. Qed.

(** X6. On a page that is not the last, a click on the next button
    followed by a click on the previous button leads to the next page and
    back: the manager ends as it started. *)
Theorem next_then_previous_returns (st : Page) (filtered : list Post) :
  listening st = true ->
  getFilteredPosts (i18n_lang st) (manager st) = Return filtered ->
  renderPagination (i18n_lang st) (manager st) = Return (pagination (dom st)) ->
  1 <= currentPage (manager st) < ceil_div (Z.of_nat (length filtered)) 6 ->
  let next := Z.to_nat (ceil_div (Z.of_nat (length filtered)) 6 + 1) in
  currentPage (manager (step st (PaginationClick next)))
  = currentPage (manager st) + 1
  /\ manager (step (step st (PaginationClick next)) (PaginationClick 0))
     = manager st.
Proof.
  intros Hl Hf Hsync Hp next.
  set (total := ceil_div (Z.of_nat (length filtered)) 6) in *.
  assert (6 < length filtered)%nat as Hlen.
  { pose proof (ceil_div_6_le_1 (Z.of_nat (length filtered)) ltac:(lia)) as E.
    fold total in E. lia. }
  destruct (renderPagination_ends toLowerCase _ _ _ _ Hf Hsync Hlen) as [_ Hnb].
  fold total in Hnb. fold next in Hnb.
  set (nb := {| disabled := currentPage (manager st) =? total;
                dataPage := currentPage (manager st) + 1 |}) in *.
  assert (disabled nb = false) as Hen by (cbn; lia).
  assert (dataPage nb = currentPage (manager st) + 1) as Hnp by reflexivity.
  assert (step st (PaginationClick next)
          = rerender st (set_currentPage (currentPage (manager st) + 1) (manager st))
              (i18n_lang st)) as E1.
  { cbn [Blog.step]. rewrite Hl. cbn [negb]. rewrite Hnb.
    unfold onPaginationClick. now rewrite Hen, Hnp. }
  set (m1 := set_currentPage (currentPage (manager st) + 1) (manager st)) in *.
  assert (getFilteredPosts (i18n_lang st) m1 = Return filtered) as Hf1 by exact Hf.
  destruct (rerender_in_sync st m1 (i18n_lang st) filtered Hf1)
    as (Em & Ei & El & Hsync1).
  rewrite E1. split; [now rewrite Em|].
  set (st1 := rerender st m1 (i18n_lang st)) in *.
  destruct (renderPagination_ends toLowerCase _ _ _ _ Hf1 Hsync1 Hlen) as [Hpb _].
  set (pb := {| disabled := currentPage m1 =? 1;
                dataPage := currentPage m1 - 1 |}) in *.
  assert (disabled pb = false) as Hpen by (cbn; lia).
  assert (dataPage pb = currentPage m1 - 1) as Hpp by reflexivity.
  assert (step st1 (PaginationClick 0)
          = rerender st1 (set_currentPage (currentPage m1 - 1) m1) (i18n_lang st1))
    as E2.
  { cbn [Blog.step]. rewrite El, Hl. cbn [negb]. rewrite Hpb.
    unfold onPaginationClick. now rewrite Hpen, Hpp, Em. }
  rewrite E2. rewrite (proj1 (rerender_manager toLowerCase _ _ _)).
  unfold m1. cbn [currentPage set_currentPage].
  replace (currentPage (manager st) + 1 - 1) with (currentPage (manager st)) by lia.
  apply set_currentPage_back.
Qed.

Lemma step_not_listening (st : Page) (ev : Event) :
  listening st = false ->
  manager (step st ev) = manager st
  /\ dom (step st ev) = dom st
  /\ listening (step st ev) = false.
Proof.
  intros Hl. destruct ev; cbn [Blog.step]; rewrite ?Hl; cbn [negb]; auto.
  destruct (i18n_lang st); auto. destruct (recognized code); auto.
Qed.

(** X7. After a failed load nothing reacts any more: whatever events
    follow, the manager stays as constructed, the grid keeps the empty
    message it was given (in the language of that moment, also across
    language changes) and no pagination control appears. *)
Theorem failed_load_is_inert (i18n : option string) (evs : list Event) :
  let st := run (init None i18n) evs in
  manager st = constructor
  /\ dom st = {| grid := renderEmpty i18n; pagination := [] |}
  /\ listening st = false.
Proof.
  cbv zeta.
  assert (forall st, listening st = false ->
            manager (run st evs) = manager st
            /\ dom (run st evs) = dom st
            /\ listening (run st evs) = false) as H.
  { induction evs as [|ev evs IH]; intros st Hl; [auto|].
    destruct (step_not_listening st ev Hl) as (Em & Ed & El).
    destruct (IH _ El) as (Em' & Ed' & El').
    change (Blog.run toLowerCase st (ev :: evs))
      with (Blog.run toLowerCase (step st ev) evs).
    rewrite Em', Ed', Em, Ed. auto. }
  apply (H (init None i18n)). reflexivity.
Qed.

End BlogPaging.

Lemma getFilteredPosts_newest_first_witness :
  BlogOrder.newestFirstOrder
    (Js.sort Blog.newestFirst
       (List.filter Blog.published (Blog.data_posts Blog.sampleData))).
Proof.
  apply (getFilteredPosts_newest_first asciiLower (Some "en")
           (Blog.load Blog.sampleData Blog.constructor)).
  vm_compute. reflexivity.
Defined.

Lemma getFilteredPosts_keeps_order_of_equal_dates_witness :
  exists f,
    sublist f (Blog.posts (Blog.load Blog.sampleData Blog.constructor))
    /\ Permutation
         (Js.sort Blog.newestFirst
            (List.filter Blog.published (Blog.data_posts Blog.sampleData))) f
    /\ forall d,
         BlogOrder.datedOn d
           (Js.sort Blog.newestFirst
              (List.filter Blog.published (Blog.data_posts Blog.sampleData)))
         = BlogOrder.datedOn d f.
Proof.
  apply (getFilteredPosts_keeps_order_of_equal_dates asciiLower (Some "en")
           (Blog.load Blog.sampleData Blog.constructor)).
  vm_compute. reflexivity.
Defined.

Lemma search_lists_exactly_the_matches_witness :
  exists r,
    Blog.getFilteredPosts asciiLower (Some "pt")
      (Blog.set_searchQuery "NOTE" (Blog.load Blog.sampleData Blog.constructor))
    = Return r
    /\ map Blog.post_id r = ["3"; "2"; "1"]
    /\ forall post, In post r ->
         exists t, Blog.entry (Blog.title post) "pt" = Some t.
Proof.
  eexists. split; [vm_compute; reflexivity|]. split; [reflexivity|].
  intros post Hin.
  apply (search_lists_exactly_the_matches asciiLower (Some "pt")
           (Blog.set_searchQuery "NOTE" (Blog.load Blog.sampleData Blog.constructor)))
    in Hin as (_ & t & _ & Ht & _).
  - exists t. exact Ht.
  - discriminate.
  - vm_compute. reflexivity.
Defined.

Lemma page_sizes_witness :
  exists shown,
    Blog.getPaginatedPosts asciiLower (Some "en")
      (Blog.set_currentPage 2 (Blog.load Blog.sampleData Blog.constructor))
    = Return shown
    /\ length shown = 1%nat.
Proof.
  destruct (page_sizes asciiLower (Some "en")
              (Blog.set_currentPage 2 (Blog.load Blog.sampleData Blog.constructor))
              (Js.sort Blog.newestFirst
                 (List.filter Blog.published (Blog.data_posts Blog.sampleData))))
    as (shown & Hs & _ & Hlast & _).
  - vm_compute. reflexivity.
  - exists shown. split; [exact Hs|].
    destruct Hlast as [Hlen _]; [vm_compute; split; [discriminate | reflexivity]|].
    change (Z.of_nat (length shown) = 1) in Hlen. lia.
Defined.

Lemma pagination_control_shape_witness :
  length (Blog.pagination (Blog.dom Blog.samplePage)) = 4%nat.
Proof.
  destruct (pagination_control_shape asciiLower (Some "en")
              (Blog.load Blog.sampleData Blog.constructor)
              (Js.sort Blog.newestFirst
                 (List.filter Blog.published (Blog.data_posts Blog.sampleData)))
              (Blog.pagination (Blog.dom Blog.samplePage)))
    as (_ & Hshape).
  - vm_compute. reflexivity.
  - vm_compute. reflexivity.
  - destruct Hshape as (Hlen & _); [vm_compute; lia|].
    apply Nat2Z.inj. rewrite Hlen. reflexivity.
Defined.

Lemma next_then_previous_returns_witness :
  Blog.manager
    (Blog.step asciiLower
       (Blog.step asciiLower Blog.samplePage (Blog.PaginationClick 3))
       (Blog.PaginationClick 0))
  = Blog.manager Blog.samplePage.
Proof.
  apply (next_then_previous_returns asciiLower Blog.samplePage
           (Js.sort Blog.newestFirst
              (List.filter Blog.published (Blog.data_posts Blog.sampleData)))).
  - reflexivity.
  - vm_compute. reflexivity.
  - vm_compute. reflexivity.
  - vm_compute. split; [discriminate | reflexivity].
Defined.

(* ===================================================================== *)
(** * Blog module: category list and tag cloud *)
(* ===================================================================== *)

Section Sidebar.

Import Blog BlogSidebar.

Variable toLowerCase : string -> string.

Local Abbreviation getFilteredPosts := (Blog.getFilteredPosts toLowerCase).

Lemma categoryItems_In (m : BlogManager) (names : list (string * string))
    (item : CategoryItem) :
  In item (categoryItems m names) ->
  In (dataCategory item, label item) names
  /\ count item = countIn m (dataCategory item)
  /\ (1 <= count item)%nat
  /\ activeItem item = String.eqb (currentCategory m) (dataCategory item).
Proof.
  induction names as [|[key name] names IH]; cbn [categoryItems]; [intros []|].
  destruct (Nat.ltb_spec 0 (countIn m key)) as [Hn|Hn].
  - intros [<-|H].
    + cbn. repeat split; auto.
    + destruct (IH H) as (? & ? & ? & ?). repeat split; auto. now right.
  - intros H. destruct (IH H) as (? & ? & ? & ?). repeat split; auto. now right.
Qed.

Lemma categoryItems_listed (m : BlogManager) (names : list (string * string))
    (key name : string) :
  In (key, name) names -> (1 <= countIn m key)%nat ->
  exists item, In item (categoryItems m names)
               /\ dataCategory item = key /\ label item = name.
Proof.
  induction names as [|[k n] names IH]; [intros []|].
  intros Hin Hc. cbn [categoryItems].
  destruct Hin as [E|Hin].
  - inversion E; subst.
    destruct (Nat.ltb_spec 0 (countIn m key)); [|lia].
    eexists. split; [left; reflexivity|]. split; reflexivity.
  - destruct (IH Hin Hc) as (item & Hi & ? & ?).
    exists item. split; [|auto].
    destruct (0 <? countIn m k)%nat; [now right | assumption].
Qed.

Lemma list_sum_cons (a : nat) (l : list nat) : list_sum (a :: l) = (a + list_sum l)%nat.
Proof. reflexivity. Qed.

(** Posts counted under distinct keys are counted once. *)
Lemma counts_of_distinct_keys (ps : list Post) (keys : list string) :
  List.NoDup keys ->
  (list_sum (map (fun key =>
                    length (List.filter (fun p => String.eqb (category p) key) ps))
                 keys)
   <= length ps)%nat.
Proof.
  intros Hnd. induction ps as [|p ps IH]; cbn [List.filter length].
  - induction keys; simpl; [lia|]. inversion Hnd; subst. auto.
  - assert (forall ks, List.NoDup ks ->
              (list_sum (map (fun key =>
                   length (if String.eqb (category p) key
                           then p :: List.filter (fun q => String.eqb (category q) key) ps
                           else List.filter (fun q => String.eqb (category q) key) ps))
                 ks)
               <= (if existsb (String.eqb (category p)) ks then 1 else 0)
                  + list_sum (map (fun key =>
                      length (List.filter (fun q => String.eqb (category q) key) ps))
                    ks))%nat) as H.
    { induction 1 as [|k ks Hk Hks IHks]; cbn [map list_sum existsb]; [lia|].
      destruct (String.eqb_spec (category p) k) as [Heq|Hne]; cbn [orb length].
      - assert (existsb (String.eqb (category p)) ks = false) as E.
        { apply not_true_is_false. intros Hex.
          apply existsb_exists in Hex as (k' & Hin & Heq').
          apply String.eqb_eq in Heq'. subst. contradiction. }
        rewrite E in IHks. rewrite !list_sum_cons. lia.
      - rewrite !list_sum_cons. lia. }
    specialize (H keys Hnd). destruct (existsb _ keys); lia.
Qed.

Lemma categoryItems_sum (m : BlogManager) (names : list (string * string)) :
  list_sum (map count (categoryItems m names))
  = list_sum (map (fun kn => countIn m (fst kn)) names).
Proof.
  induction names as [|[key name] names IH]; [reflexivity|].
  cbn [categoryItems map fst]. rewrite list_sum_cons.
  destruct (Nat.ltb_spec 0 (countIn m key)); cbn [map count];
    rewrite ?list_sum_cons; lia.
Qed.

(** X8. In the category list the link "All" shows the number of posts;
    every other link belongs to a category of the current language's
    table that has at least one post, and shows the number of posts of
    that category; a category with a post is always listed. When the
    table's keys are distinct, the category counts add up to at most the
    count of "All". *)
Theorem category_list_counts (i18n : option string) (m : BlogManager) :
  let names := namesFor (categories m) (getCurrentLang i18n) in
  exists items,
    renderCategories i18n m = allItem i18n m :: items
    /\ count (allItem i18n m) = length (posts m)
    /\ (forall item, In item items ->
          In (dataCategory item, label item) names
          /\ (1 <= count item)%nat
          /\ count item = countIn m (dataCategory item))
    /\ (forall key name, In (key, name) names -> (1 <= countIn m key)%nat ->
          exists item, In item items
                       /\ dataCategory item = key /\ label item = name)
    /\ (List.NoDup (map fst names) ->
        (list_sum (map count items) <= length (posts m))%nat).
Proof.
  cbv zeta. eexists. split; [reflexivity|]. split; [reflexivity|].
  split; [|split].
  - intros item H. apply categoryItems_In in H as (? & ? & ? & _). auto.
  - apply categoryItems_listed.
  - intros Hnd. rewrite categoryItems_sum.
    pose proof (counts_of_distinct_keys (posts m) _ Hnd) as H.
    rewrite map_map in H. exact H.
Qed.


Lemma addTag_In (seen : list string) (tag t : string) :
  In t (addTag seen tag) <-> In t seen \/ t = tag.
Proof.
  unfold addTag. destruct (array_includes seen tag) eqn:E.
  - apply array_includes_In in E. split; [auto|]. intros [?| ->]; auto.
  - rewrite in_app_iff. simpl. split; intros [?|?]; auto.
    + destruct H; [auto | contradiction].
Qed.

Lemma NoDup_snoc {A} (l : list A) (x : A) :
  List.NoDup l -> ~ In x l -> List.NoDup (l ++ [x]).
Proof.
  induction 1 as [|y l Hy Hl IH]; intros Hx; simpl.
  - constructor; [intros [] | constructor].
  - constructor.
    + rewrite in_app_iff. simpl. intros [?|[->|[]]]; [contradiction|].
      apply Hx. now left.
    + apply IH. intros ?. apply Hx. now right.
Qed.

Lemma addTag_NoDup (seen : list string) (tag : string) :
  List.NoDup seen -> List.NoDup (addTag seen tag).
Proof.
  intros H. unfold addTag. destruct (array_includes seen tag) eqn:E; [exact H|].
  apply NoDup_snoc; [exact H|]. intros Hin.
  apply array_includes_In in Hin. congruence.
Qed.

Lemma addTags_spec (ts : list string) : forall seen,
  List.NoDup seen ->
  List.NoDup (fold_left addTag ts seen)
  /\ forall t, In t (fold_left addTag ts seen) <-> In t seen \/ In t ts.
Proof.
  induction ts as [|tag ts IH]; intros seen Hnd; cbn [fold_left].
  - split; [exact Hnd|]. intros t. simpl. tauto.
  - destruct (IH (addTag seen tag) (addTag_NoDup _ _ Hnd)) as [H1 H2].
    split; [exact H1|]. intros t. rewrite H2, addTag_In. simpl.
    split; intros H; repeat destruct H as [H|H]; auto.
Qed.

Lemma usedTags_spec (ps : list Post) : forall seen,
  List.NoDup seen ->
  let all := fold_left (fun seen post => fold_left addTag (tags post) seen) ps seen in
  List.NoDup all
  /\ forall t, In t all <-> In t seen \/ exists post, In post ps /\ In t (tags post).
Proof.
  induction ps as [|p ps IH]; intros seen Hnd; cbn [fold_left].
  - split; [exact Hnd|]. intros t. split; [auto|].
    intros [?|(? & [] & _)]. assumption.
  - destruct (addTags_spec (tags p) seen Hnd) as [H1 H2].
    destruct (IH _ H1) as [H3 H4]. split; [exact H3|].
    intros t. rewrite H4, H2. split.
    + intros [[?|?]|(q & ? & ?)]; eauto.
      * right. exists p. split; [now left | assumption].
      * right. exists q. split; [now right | assumption].
    + intros [?|(q & [<-|?] & ?)]; eauto.
Qed.

Lemma renderTags_spec (m : BlogManager) :
  List.NoDup (usedTags (posts m))
  /\ (forall t, In t (map dataTag (renderTags m))
               <-> exists post, In post (posts m) /\ In t (tags post)).
Proof.
  destruct (usedTags_spec (posts m) [] (List.NoDup_nil _)) as [Hnd Hin].
  assert (map dataTag (renderTags m) = usedTags (posts m)) as E.
  { unfold renderTags. rewrite map_map. cbn [dataTag]. apply map_id. }
  rewrite E. split; [exact Hnd|].
  intros t. unfold usedTags. rewrite Hin. simpl. tauto.
Qed.

(** X10. The tag cloud lists every tag carried by some post exactly once,
    and nothing else; an entry is marked active exactly when its tag is the
    selected one, so at most one entry is. *)
Theorem tag_cloud_is_the_set_of_used_tags (m : BlogManager) :
  List.NoDup (map dataTag (renderTags m))
  /\ (forall t, In t (map dataTag (renderTags m))
               <-> exists post, In post (posts m) /\ In t (tags post))
  /\ (forall item, In item (renderTags m) ->
        (tagActive item = true <-> currentTag m = Some (dataTag item))).
Proof.
  destruct (usedTags_spec (posts m) [] (List.NoDup_nil _)) as [Hnd Hin].
  assert (map dataTag (renderTags m) = usedTags (posts m)) as E.
  { unfold renderTags. rewrite map_map. cbn [dataTag]. apply map_id. }
  rewrite E. split; [exact Hnd|]. split.
  - intros t. unfold usedTags. rewrite Hin. simpl. tauto.
  - intros item Hitem. unfold renderTags in Hitem.
    apply in_map_iff in Hitem as (t & <- & _). cbn [tagActive dataTag].
    destruct (currentTag m) as [c|]; [|split; discriminate].
    rewrite String.eqb_eq. split; congruence.
Qed.

(** X11. No entry of the tag cloud leads to an empty listing: with all
    categories shown and no search query, a click on a tag of the cloud
    that is not yet selected selects it and lists at least one post. *)
Theorem cloud_tag_click_lists_a_post
    (i18n : option string) (m : BlogManager) (t : string) :
  In t (map dataTag (renderTags m)) ->
  t <> "" ->
  currentTag m <> Some t ->
  currentCategory m = "all" ->
  searchQuery m = "" ->
  exists m' r,
    onTagClick t m = Some m'
    /\ currentTag m' = Some t
    /\ getFilteredPosts i18n m' = Return r
    /\ r <> [].
Proof.
  intros Hin Ht Hsel Hcat Hq.
  apply (proj1 (proj2 (renderTags_spec m) t)) in Hin
    as (post & Hpost & Htag).
  assert (onTagClick t m = Some (set_currentPage 1 (set_currentTag (Some t) m)))
    as E.
  { unfold onTagClick. apply String.eqb_neq in Ht. rewrite Ht.
    destruct (currentTag m) as [c|]; [|reflexivity].
    destruct (String.eqb_spec c t); [congruence | reflexivity]. }
  eexists. eexists. split; [exact E|]. split; [reflexivity|].
  rewrite getFilteredPosts_no_query by exact Hq.
  split; [reflexivity|].
  intros Hnil.
  assert (In post (sort newestFirst
            (byTag (set_currentPage 1 (set_currentTag (Some t) m))
               (byCategory (set_currentPage 1 (set_currentTag (Some t) m))
                  (posts (set_currentPage 1 (set_currentTag (Some t) m)))))))
    as Hp.
  { apply sort_In. apply byTag_In. split.
    - apply byCategory_In. split; [exact Hpost|]. left. exact Hcat.
    - right. exists t. split; [|exact Htag].
      unfold activeTag. cbn. apply String.eqb_neq in Ht. now rewrite Ht. }
  rewrite Hnil in Hp. destruct Hp.
Qed.

End Sidebar.

Lemma category_list_counts_witness :
  exists items,
    BlogSidebar.renderCategories (Some "pt")
      (Blog.load Blog.sampleData Blog.constructor)
    = BlogSidebar.allItem (Some "pt") (Blog.load Blog.sampleData Blog.constructor)
      :: items
    /\ map BlogSidebar.label items = ["Pesquisa"; "Ensino"]
    /\ (list_sum (map BlogSidebar.count items)
        <= length (Blog.posts (Blog.load Blog.sampleData Blog.constructor)))%nat.
Proof.
  destruct (category_list_counts (Some "pt")
              (Blog.load Blog.sampleData Blog.constructor))
    as (items & E & _ & _ & _ & Hsum).
  exists items. split; [exact E|]. split.
  - vm_compute in E. inversion E. reflexivity.
  - apply Hsum. vm_compute.
    apply List.NoDup_cons; [intros [H|[]]; discriminate|].
    apply List.NoDup_cons; [intros []|]. apply List.NoDup_nil.
Defined.


Lemma cloud_tag_click_lists_a_post_witness :
  exists m' r,
    Blog.onTagClick "web" (Blog.load Blog.sampleData Blog.constructor) = Some m'
    /\ Blog.currentTag m' = Some "web"
    /\ Blog.getFilteredPosts asciiLower (Some "en") m' = Return r
    /\ r <> [].
Proof.
  apply (cloud_tag_click_lists_a_post asciiLower (Some "en")
           (Blog.load Blog.sampleData Blog.constructor) "web").
  - vm_compute. right. right. left. reflexivity.
  - discriminate.
  - discriminate.
  - reflexivity.
  - reflexivity.
Defined.

(* ===================================================================== *)
(** * Localization store: subscribers and the swept document *)
(* ===================================================================== *)

Section Sweep.

Import I18n I18nSweep.

Lemma mapM_Forall2 {A B} (f : A -> completion B) (l : list A) (ys : list B) :
  mapM f l = Return ys -> Forall2 (fun x y => f x = Return y) l ys.
Proof.
  revert ys. induction l as [|x l IH]; simpl; intros ys H.
  - inversion H. constructor.
  - apply bind_Return_inv in H as (y & Hy & H).
    apply bind_Return_inv in H as (ys' & Hys & H).
    inversion H; subst. constructor; auto.
Qed.

Lemma mapM_ext_Forall2 {A B} (f g : A -> completion B) (l l' : list A) :
  Forall2 (fun x x' => f x = g x') l l' -> mapM f l = mapM g l'.
Proof.
  induction 1 as [|x x' l l' Hx Hl IH]; simpl; [reflexivity|].
  now rewrite Hx, IH.
Qed.

(** With a recognized code [setLanguage] returns, and this is the store it
    returns. *)
Lemma setLanguage_recognized (st : Store) (lang : string) :
  lang = "en" \/ lang = "pt" ->
  let st1 := {| currentLang := lang; translations := translations st;
                observers := observers st;
                storage := <["language" := lang]> (storage st);
                document := document st; calls := calls st |} in
  exists doc,
    applyTranslations st1 = Return doc
    /\ setLanguage st lang
       = Return {| currentLang := lang; translations := translations st;
                   observers := observers st;
                   storage := <["language" := lang]> (storage st);
                   document := updateLangButtons lang doc;
                   calls := notifyObservers lang (observers st) (calls st) |}.
Proof.
  intros Hrec st1.
  destruct (applyTranslations_returns st1) as (doc & Hdoc & _).
  exists doc. split; [exact Hdoc|]. unfold setLanguage.
  replace (negb (String.eqb lang "en") && negb (String.eqb lang "pt"))
    with false by (destruct Hrec; subst lang; reflexivity).
  fold st1. rewrite Hdoc. reflexivity.
Qed.



Lemma applyTranslations_shows (st : Store) (doc : Document) :
  applyTranslations st = Return doc ->
  documentLang doc = currentLang st
  /\ langButtons doc = langButtons (document st)
  /\ Forall2 (showsTranslation st) (tagged (document st)) (tagged doc)
  /\ Forall2 (titleShowsTranslation st) (titled (document st)) (titled doc).
Proof.
  unfold applyTranslations. intros H.
  apply bind_Return_inv in H as (els & Hels & H).
  apply bind_Return_inv in H as (tls & Htls & H).
  inversion H; subst; clear H. cbn.
  split; [reflexivity|]. split; [reflexivity|]. split.
  - apply mapM_Forall2 in Hels.
    eapply Forall2_impl; [exact Hels|]. cbn. intros el el' Hel.
    apply bind_Return_inv in Hel as (v & Hv & Hel).
    unfold showsTranslation, translatedSlot, otherSlot.
    destruct (textInput el) eqn:Ti; inversion Hel; subst; cbn; rewrite ?Ti; auto.
  - apply mapM_Forall2 in Htls.
    eapply Forall2_impl; [exact Htls|]. cbn. intros el el' Hel.
    apply bind_Return_inv in Hel as (v & Hv & Hel).
    inversion Hel; subst. split; [reflexivity | exact Hv].
Qed.

Lemma updateLangButtons_marks (lang : string) (doc : Document) :
  Forall2 (marks lang) (langButtons doc) (langButtons (updateLangButtons lang doc)).
Proof.
  cbn [updateLangButtons langButtons].
  induction (langButtons doc) as [|btn btns IH]; cbn [map]; constructor; auto.
  split; [reflexivity|]. cbn.
  destruct (dataLang btn) as [l|]; [|split; discriminate].
  rewrite String.eqb_eq. split; congruence.
Qed.

(** X13. After [setLanguage] with a recognized code the document agrees
    with the store: the language of the root element is the code, every
    tagged element shows the translation of its key (in the placeholder of
    a text input, in the text content otherwise) with its other slot, its
    key and its kind untouched, every titled element carries the
    translation as title, and exactly the language buttons of that code
    are marked active. *)
Theorem setLanguage_sweeps_document (st st' : Store) (lang : string) :
  lang = "en" \/ lang = "pt" ->
  setLanguage st lang = Return st' ->
  currentLang st' = lang
  /\ translations st' = translations st
  /\ documentLang (document st') = lang
  /\ Forall2 (showsTranslation st') (tagged (document st)) (tagged (document st'))
  /\ Forall2 (titleShowsTranslation st')
       (titled (document st)) (titled (document st'))
  /\ Forall2 (marks lang) (langButtons (document st)) (langButtons (document st')).
Proof.
  intros Hrec H.
  destruct (setLanguage_recognized st lang Hrec) as (doc & Hdoc & E).
  rewrite E in H. inversion H; subst st'; clear H E.
  apply applyTranslations_shows in Hdoc as (Hl & Hb & Hels & Htls).
  cbn [currentLang translations document] in *.
  split; [reflexivity|]. split; [reflexivity|]. split; [exact Hl|].
  split; [exact Hels|]. split; [exact Htls|].
  rewrite <- Hb. apply updateLangButtons_marks.
Qed.

Lemma translate_same_table (st st' : Store) (key : string) :
  translations st = translations st' -> currentLang st = currentLang st' ->
  translate st key = translate st' key.
Proof. intros Ht Hl. unfold translate. now rewrite Ht, Hl. Qed.

Lemma showsTranslation_same_input (st st' st0 : Store) (el el' : Element) :
  translations st' = translations st -> currentLang st' = currentLang st ->
  showsTranslation st0 el el' ->
  (translation ← translate st' (dataI18n el');
   Return (if textInput el'
           then {| dataI18n := dataI18n el'; textInput := true;
                   textContent := textContent el';
                   placeholder := translation |}
           else {| dataI18n := dataI18n el'; textInput := false;
                   textContent := translation;
                   placeholder := placeholder el' |}))
  = (translation ← translate st (dataI18n el);
     Return (if textInput el
             then {| dataI18n := dataI18n el; textInput := true;
                     textContent := textContent el;
                     placeholder := translation |}
             else {| dataI18n := dataI18n el; textInput := false;
                     textContent := translation;
                     placeholder := placeholder el |})).
Proof.
  intros Ht Hl (Hk & Hi & Ho & _). unfold otherSlot in Ho. rewrite Hk, Hi in *.
  rewrite (translate_same_table st' st _ Ht Hl).
  destruct (translate st (dataI18n el)); [|reflexivity]. cbn.
  destruct (textInput el); now rewrite Ho.
Qed.

(** X14. The swept document depends on the last language only: choosing
    one recognized language and then another leaves the same document as
    choosing the second one directly. *)
Theorem last_language_decides_document (st st1 st2 : Store) (lang1 lang2 : string) :
  lang1 = "en" \/ lang1 = "pt" ->
  lang2 = "en" \/ lang2 = "pt" ->
  setLanguage st lang1 = Return st1 ->
  setLanguage st1 lang2 = Return st2 ->
  exists direct,
    setLanguage st lang2 = Return direct
    /\ document direct = document st2
    /\ currentLang direct = currentLang st2
    /\ storage direct !! "language" = storage st2 !! "language".
Proof.
  intros H1 H2 E1 E2.
  destruct (setLanguage_recognized st lang1 H1) as (doc1 & Hdoc1 & F1).
  rewrite F1 in E1. inversion E1; subst st1; clear E1 F1.
  destruct (setLanguage_recognized st lang2 H2) as (docd & Hdocd & Fd).
  eexists. split; [exact Fd|].
  match type of E2 with setLanguage ?s _ = _ =>
    destruct (setLanguage_recognized s lang2 H2) as (doc2 & Hdoc2 & F2)
  end.
  rewrite F2 in E2. inversion E2; subst st2; clear E2 F2 Fd.
  cbn [document currentLang storage translations observers calls] in *.
  split; [|split; [reflexivity|]].
  - apply applyTranslations_shows in Hdoc1 as (_ & Hb1 & Hels1 & Htls1).
    cbn [document] in *.
    assert (doc2 = {| tagged := tagged docd; titled := titled docd;
                      langButtons := langButtons
                                       (updateLangButtons lang1 doc1);
                      documentLang := documentLang docd |}) as ->.
    { unfold applyTranslations in Hdoc2, Hdocd.
      cbn [document tagged titled langButtons updateLangButtons currentLang] in *.
      match type of Hdocd with
      | (els ← mapM ?f ?l; _) = _ =>
          match type of Hdoc2 with
          | (els ← mapM ?g ?l'; _) = _ =>
              assert (mapM g l' = mapM f l) as Eels
          end
      end.
      { apply mapM_ext_Forall2. apply Forall2_flip.
        eapply Forall2_impl; [exact Hels1|]. intros el el' Hel. unfold flip.
        eapply showsTranslation_same_input;
          [reflexivity | reflexivity | exact Hel]. }
      rewrite Eels in Hdoc2.
      apply bind_Return_inv in Hdocd as (els & Hels & Hdocd).
      rewrite Hels in Hdoc2. cbn [mbind completion_bind] in Hdoc2.
      match type of Hdocd with
      | (tls ← mapM ?f ?l; _) = _ =>
          match type of Hdoc2 with
          | (tls ← mapM ?g ?l'; _) = _ =>
              assert (mapM g l' = mapM f l) as Etls
          end
      end.
      { apply mapM_ext_Forall2. apply Forall2_flip.
        eapply Forall2_impl; [exact Htls1|]. intros el el' [Hk _]. unfold flip.
        rewrite Hk.
        match goal with
        | |- (_ ← translate ?a _; _) = (_ ← translate ?b _; _) =>
            now rewrite (translate_same_table a b _ eq_refl eq_refl)
        end. }
      rewrite Etls in Hdoc2.
      apply bind_Return_inv in Hdocd as (tls & Htls & Hdocd).
      rewrite Htls in Hdoc2. cbn [mbind completion_bind] in Hdoc2.
      inversion Hdoc2; inversion Hdocd; subst. reflexivity. }
    unfold updateLangButtons. cbn [tagged titled langButtons documentLang].
    f_equal. rewrite Hb1, map_map. cbn [dataLang].
    apply applyTranslations_shows in Hdocd as (_ & Hbd & _). cbn [document] in Hbd.
    now rewrite Hbd.
  - now rewrite !lookup_insert_eq.
Qed.

End Sweep.


Lemma setLanguage_sweeps_document_witness :
  exists st',
    I18n.setLanguage I18n.sampleStore "pt" = Return st'
    /\ I18n.documentLang (I18n.document st') = "pt"
    /\ Forall2 (I18nSweep.showsTranslation st')
         (I18n.tagged I18n.sampleDocument) (I18n.tagged (I18n.document st')).
Proof.
  destruct (I18n.setLanguage I18n.sampleStore "pt") as [st'|e] eqn:E;
    [|vm_compute in E; discriminate].
  exists st'. split; [reflexivity|].
  destruct (setLanguage_sweeps_document I18n.sampleStore st' "pt"
              (or_intror eq_refl) E) as (_ & _ & Hl & Ht & _).
  split; assumption.
Defined.

Lemma last_language_decides_document_witness :
  exists st1 st2,
    I18n.setLanguage I18n.sampleStore "pt" = Return st1
    /\ I18n.setLanguage st1 "en" = Return st2
    /\ exists direct,
         I18n.setLanguage I18n.sampleStore "en" = Return direct
         /\ I18n.document direct = I18n.document st2
         /\ I18n.currentLang direct = I18n.currentLang st2
         /\ I18n.storage direct !! "language" = I18n.storage st2 !! "language".
Proof.
  do 2 eexists. split; [vm_compute; reflexivity|].
  split; [vm_compute; reflexivity|].
  eapply (last_language_decides_document I18n.sampleStore _ _ "pt" "en").
  - right. reflexivity.
  - left. reflexivity.
  - vm_compute. reflexivity.
  - vm_compute. reflexivity.
Defined.

(* ===================================================================== *)
(** * Theme store: every hue, and the copies of the hue *)
(* ===================================================================== *)

Section ThemeRuns.

Import JsNumber Theme ThemeEvents.

Local Open Scope float_scope.

Lemma hue_round_trip_table :
  map (fun n => hexToHsl (hslToHex (hueOf n) 70 50)) (seq 0 360)
  = map (fun n => {| hsl_h := hueOf n; hsl_s := 70; hsl_l := 50 |}) (seq 0 360).
Proof. vm_compute. reflexivity. Qed.

(** X15. For every whole hue from 0 to 359, the colour [hslToHex] gives at
    saturation 70 and lightness 50 is read back by [hexToHsl] as exactly
    that hue, saturation 70 and lightness 50; so picking the colour the
    picker already shows leaves the hue where it is. *)
Theorem every_hue_round_trips (th : ThemeManager) (n : nat) :
  (n < 360)%nat ->
  hexToHsl (hslToHex (hueOf n) 70 50)
  = {| hsl_h := hueOf n; hsl_s := 70; hsl_l := 50 |}
  /\ currentHue (onPickerInput th (hslToHex (hueOf n) 70 50)) = hueOf n.
Proof.
  intros Hn.
  assert (hexToHsl (hslToHex (hueOf n) 70 50)
          = {| hsl_h := hueOf n; hsl_s := 70; hsl_l := 50 |}) as E.
  { apply (proj1 (@List.map_ext_in_iff _ _ _ _ _) hue_round_trip_table n).
    apply in_seq. lia. }
  split; [exact E|]. unfold onPickerInput. cbn [applyTheme currentHue].
  now rewrite E.
Qed.

Lemma applyTheme_agrees (th : ThemeManager) (h : float) :
  copiesAgree (applyTheme th h).
Proof.
  unfold copiesAgree. cbn. destruct (colorPicker th); auto.
Qed.

Lemma step_agrees (th : ThemeManager) (ev : Event) :
  copiesAgree th -> copiesAgree (step th ev).
Proof.
  intros H. destruct ev as [i|value|]; cbn [step].
  - destruct (nth_error presets i) as [[key p]|]; [|exact H].
    unfold setPreset. destruct (preset presets key); [|exact H].
    apply applyTheme_agrees.
  - apply applyTheme_agrees.
  - apply applyTheme_agrees.
Qed.

(** X16. Once the page has loaded, the copies of the hue never disagree:
    after any preset clicks, colour picks and resets, the custom property
    and the stored entry hold the current hue and the colour picker shows
    its colour. *)
Theorem hue_copies_agree
    (stored : option string) (buttons : list PresetBtn) (picker : option string)
    (evs : list Event) :
  copiesAgree (run (loaded stored buttons picker) evs).
Proof.
  assert (copiesAgree (loaded stored buttons picker)) as H0.
  { unfold copiesAgree, loaded, init. cbn. destruct picker; auto. }
  revert H0. generalize (loaded stored buttons picker).
  induction evs as [|ev evs IH]; intros th H; [exact H|].
  apply IH, step_agrees, H.
Qed.





End ThemeRuns.

Lemma every_hue_round_trips_witness :
  Theme.hexToHsl (Theme.hslToHex 100 70 50)
  = {| Theme.hsl_h := 100; Theme.hsl_s := 70; Theme.hsl_l := 50 |}%float.
Proof.
  apply (every_hue_round_trips (Theme.loaded None [] None) 100). lia.
Defined.



(* ===================================================================== *)
(** * Utilities of the main module *)
(* ===================================================================== *)

Section UtilsFacts.

Import JsNumber Utils.

Lemma ticks_app {A} (st : Debounced A) (ts us : list (Tick A)) :
  ticks st (ts ++ us) = ticks (ticks st ts) us.
Proof. apply fold_left_app. Qed.

Lemma calls_only_arm {A} (argss : list A) : forall (st : Debounced A),
  invoked (ticks st (map Call argss)) = invoked st
  /\ (forall last, armed st = Some last \/ argss <> [] ->
        exists last', armed (ticks st (map Call argss)) = Some last').
Proof.
  induction argss as [|a argss IH]; intros st; cbn [map].
  - split; [reflexivity|]. intros last [H|H]; [eauto | contradiction].
  - destruct (IH (call st a)) as [Hi Ha]. split; [exact Hi|].
    intros _ _. apply (Ha a). left. reflexivity.
Qed.

(** X19. A debounced function runs once per burst: however many calls
    come before the timer fires, [func] is then called once, with the
    arguments of the last call; calls alone never run it, and a timer
    that has fired does not fire again. *)
Theorem debounce_runs_last_call_once {A}
    (st : Debounced A) (earlier : list A) (last : A) :
  let calls := map Call (earlier ++ [last]) in
  invoked (ticks st calls) = invoked st
  /\ invoked (ticks st (calls ++ [Fire])) = invoked st ++ [last]
  /\ armed (ticks st (calls ++ [Fire])) = None
  /\ ticks st (calls ++ [Fire; Fire]) = ticks st (calls ++ [Fire]).
Proof.
  cbv zeta. rewrite map_app. cbn [map].
  assert (ticks st (map Call earlier ++ [Call last])
          = {| armed := Some last; invoked := invoked st |}) as E.
  { rewrite ticks_app. cbn. unfold call.
    now rewrite (proj1 (calls_only_arm earlier st)). }
  rewrite !(ticks_app st (map Call earlier ++ [Call last])), E.
  cbn. repeat split.
Qed.










End UtilsFacts.




(* ===================================================================== *)
(** * Page chrome and research tabs *)
(* ===================================================================== *)

Section ChromeFacts.

Import MobileMenu.

Lemma click_agree (m : Menu) (c : Click) :
  menuActive m = toggleActive m ->
  menuActive (click m c) = toggleActive (click m c).
Proof. intros H. destruct c; cbn; congruence. Qed.

Lemma clicks_parity (cs : list Click) : forall m n,
  menuActive m = toggleActive m ->
  menuActive m = Nat.odd n ->
  let m' := clicks m cs in
  menuActive m' = toggleActive m'
  /\ menuActive m' = Nat.odd (togglesSinceClose cs n).
Proof.
  induction cs as [|c cs IH]; intros m n Ha Hp; cbn [clicks fold_left].
  - auto.
  - destruct c; cbn [togglesSinceClose];
      apply (IH (click m _)); cbn; try congruence.
    rewrite Nat.odd_succ, <- Nat.negb_odd. congruence.
Qed.

(** X23. The menu and its toggle button always carry the class [active]
    together, and the menu is open exactly when an odd number of clicks on
    the toggle button followed the last click on a link or outside the
    menu. *)
Theorem mobile_menu_open_state (cs : list Click) :
  let m := clicks closed cs in
  menuActive m = toggleActive m
  /\ menuActive m = Nat.odd (togglesSinceClose cs 0).
Proof. apply clicks_parity; reflexivity. Qed.

End ChromeFacts.

Section TabFacts.

Import ResearchTabs.

Lemma activateOnly_nth (i : nat) (l : list Tab) : forall position j,
  nth_error (activateOnly i position l) j
  = option_map (fun tab => {| dataTab := dataTab tab;
                              tabActive := Nat.eqb (position + j) i |})
               (nth_error l j).
Proof.
  induction l as [|tab l IH]; intros position j.
  - destruct j; reflexivity.
  - destruct j as [|j]; cbn [activateOnly nth_error option_map].
    + now rewrite Nat.add_0_r.
    + rewrite IH. now rewrite Nat.add_succ_comm.
Qed.

Lemma activateOnly_count (i : nat) (l : list Tab) : forall position,
  length (List.filter tabActive (activateOnly i position l))
  = (if (position <=? i)%nat && (i <? position + length l)%nat then 1 else 0)%nat.
Proof.
  induction l as [|tab l IH]; intros position; cbn [activateOnly List.filter length].
  - rewrite Nat.add_0_r.
    destruct (Nat.leb_spec position i), (Nat.ltb_spec i position); try reflexivity; lia.
  - cbn [tabActive]. destruct (Nat.eqb_spec position i) as [->|Hne];
      cbn [length]; rewrite IH.
    + destruct (Nat.leb_spec (S i) i); [lia|].
      destruct (Nat.leb_spec i i); [|lia].
      destruct (Nat.ltb_spec i (i + S (length l))); [reflexivity | lia].
    + destruct (Nat.leb_spec (S position) i), (Nat.leb_spec position i),
        (Nat.ltb_spec i (S position + length l)),
        (Nat.ltb_spec i (position + S (length l))); cbn; try reflexivity; lia.
Qed.

Lemma filter_eqb_once (ids : list string) (target : string) :
  List.NoDup ids -> In target ids ->
  length (List.filter (fun id => String.eqb id target) ids) = 1%nat.
Proof.
  induction 1 as [|id ids Hid Hnd IH]; [intros []|].
  intros Hin. cbn [List.filter].
  destruct (String.eqb_spec id target) as [->|Hne]; cbn [length].
  - f_equal. apply length_zero_iff_nil.
    destruct (List.filter _ ids) as [|x xs] eqn:E; [reflexivity|].
    assert (In x (List.filter (fun id => String.eqb id target) ids)) as Hx
      by (rewrite E; now left).
    apply filter_In in Hx as [Hx Heq]. apply String.eqb_eq in Heq. subst.
    contradiction.
  - destruct Hin as [->|Hin]; [contradiction | now apply IH].
Qed.

Lemma shown_count (target : string) (panes : list Content) :
  length (List.filter contentActive
            (map (fun content =>
                    {| contentId := contentId content;
                       contentActive := String.eqb (contentId content) target |})
                 panes))
  = length (List.filter (fun id => String.eqb id target) (map contentId panes)).
Proof.
  induction panes as [|c cs IH]; [reflexivity|].
  cbn [map List.filter contentActive contentId].
  destruct (String.eqb (contentId c) target); cbn [length]; now rewrite IH.
Qed.

(** X24. A click on a tab leaves exactly that tab active. A content pane
    is active afterwards exactly when its id is the tab's [data-tab]; so
    when the ids of the panes are distinct and the tab names one of them,
    exactly one pane is shown, and a tab that names no pane hides them
    all. *)
Theorem tab_click_shows_one_pane (page : Tabs) (i : nat) (tab : Tab) :
  nth_error (tabs page) i = Some tab ->
  let page' := clickTab i page in
  (forall j t, nth_error (tabs page') j = Some t ->
     (tabActive t = true <-> j = i))
  /\ length (List.filter tabActive (tabs page')) = 1%nat
  /\ map contentId (contents page') = map contentId (contents page)
  /\ (forall content, In content (contents page') ->
        (contentActive content = true <-> dataTab tab = Some (contentId content)))
  /\ (forall target,
        dataTab tab = Some target ->
        List.NoDup (map contentId (contents page)) ->
        In target (map contentId (contents page)) ->
        length (List.filter contentActive (contents page')) = 1%nat)
  /\ ((forall content, In content (contents page) ->
         dataTab tab <> Some (contentId content)) ->
      List.filter contentActive (contents page') = []).
Proof.
  intros Hnth. cbv zeta. unfold clickTab. rewrite Hnth.
  cbn [tabs contents].
  assert (forall content,
            In content
              (map (fun content =>
                      {| contentId := contentId content;
                         contentActive :=
                           match dataTab tab with
                           | Some target => String.eqb (contentId content) target
                           | None => false
                           end |}) (contents page)) ->
            (contentActive content = true
             <-> dataTab tab = Some (contentId content))) as Hact.
  { intros content Hin. apply in_map_iff in Hin as (c0 & <- & _). cbn.
    destruct (dataTab tab) as [target|]; [|split; discriminate].
    rewrite String.eqb_eq. split; congruence. }
  split; [|split; [|split; [|split; [|split]]]].
  - intros j t Hj. rewrite activateOnly_nth in Hj.
    destruct (nth_error (tabs page) j); [|discriminate].
    inversion Hj; subst. cbn. apply Nat.eqb_eq.
  - rewrite activateOnly_count.
    assert (i < length (tabs page))%nat
      by (apply nth_error_Some; congruence).
    replace (0 <=? i)%nat with true by (symmetry; apply Nat.leb_le; lia).
    replace (i <? 0 + length (tabs page))%nat with true
      by (symmetry; apply Nat.ltb_lt; lia).
    reflexivity.
  - rewrite map_map. reflexivity.
  - exact Hact.
  - intros target Ht Hnd Hin. rewrite Ht.
    rewrite <- (filter_eqb_once _ target Hnd Hin).
    apply shown_count.
  - intros Hnone.
    destruct (List.filter contentActive _) as [|x xs] eqn:E; [reflexivity|].
    assert (In x (x :: xs)) as Hx by now left.
    rewrite <- E in Hx. apply filter_In in Hx as [Hin Ha].
    apply Hact in Ha; [|exact Hin].
    apply in_map_iff in Hin as (c0 & <- & Hc0). cbn in Ha.
    now destruct (Hnone c0 Hc0).
Qed.

End TabFacts.

Lemma tab_click_shows_one_pane_witness :
  let page :=
    {| ResearchTabs.tabs :=
         [ {| ResearchTabs.dataTab := Some "publications";
              ResearchTabs.tabActive := true |};
           {| ResearchTabs.dataTab := Some "working";
              ResearchTabs.tabActive := false |} ];
       ResearchTabs.contents :=
         [ {| ResearchTabs.contentId := "publications";
              ResearchTabs.contentActive := true |};
           {| ResearchTabs.contentId := "working";
              ResearchTabs.contentActive := false |} ] |} in
  length (List.filter ResearchTabs.tabActive
            (ResearchTabs.tabs (ResearchTabs.clickTab 1 page))) = 1%nat.
Proof.
  intros page.
  apply (tab_click_shows_one_pane page 1
           {| ResearchTabs.dataTab := Some "working";
              ResearchTabs.tabActive := false |}).
  reflexivity.
Defined.

(* ===================================================================== *)
(** * Configuration module: the social links *)
(* ===================================================================== *)

Section SocialLinks.

Import I18n Config.

Lemma getSocial_truthy (config : option ConfigData) (platform : string) :
  truthy (getSocial config platform) = true.
Proof.
  unfold getSocial. destruct (socialOf config) as [o|]; [|reflexivity].
  cbv zeta. destruct (truthy (socialMember o platform)) eqn:E; [exact E | reflexivity].
Qed.

Lemma getSocial_configured (config : option ConfigData)
    (o : list (string * Table)) (platform : string) :
  socialOf config = Some o ->
  (truthy (socialMember o platform) = true ->
   getSocial config platform = socialMember o platform)
  /\ (truthy (socialMember o platform) = false ->
      getSocial config platform = VString "#").
Proof.
  intros E. unfold getSocial. rewrite E. cbv zeta.
  destruct (truthy (socialMember o platform)); split; congruence.
Qed.

Lemma setHref_twice (o : list (string * Table)) (link : Link) :
  map (setHref dataSocialText o)
    (map (setHref dataSocial o)
       [setHref dataSocialText o (setHref dataSocial o link)])
  = [setHref dataSocialText o (setHref dataSocial o link)].
Proof.
  cbn [map]. f_equal. destruct link as [s t h]. unfold setHref.
  cbn [dataSocial dataSocialText href].
  destruct s as [p|], t as [q|]; cbv zeta;
    repeat (cbn [dataSocial dataSocialText href];
            match goal with
            | |- context [truthy (socialMember o ?x)] =>
                destruct (truthy (socialMember o x)) eqn:?
            end);
    cbn [dataSocial dataSocialText href];
    try reflexivity; try congruence.
Qed.

(** X25. Applying the social links is idempotent: a second call of
    [applySocialLinks] with the same configuration changes nothing. *)
Theorem applySocialLinks_idempotent
    (config : option ConfigData) (links : list Link) :
  applySocialLinks config (applySocialLinks config links)
  = applySocialLinks config links.
Proof.
  unfold applySocialLinks. destruct (socialOf config) as [o|]; [|reflexivity].
  induction links as [|link links IH]; [reflexivity|].
  cbn [map]. pose proof (setHref_twice o link) as H. cbn [map] in H.
  inversion H as [E]. rewrite !E. f_equal. exact IH.
Qed.

Lemma setHref_linked (config : option ConfigData) (o : list (string * Table))
    (link : Link) :
  socialOf config = Some o ->
  linked config link (setHref dataSocialText o (setHref dataSocial o link)).
Proof.
  intros E. destruct link as [s t h]. unfold linked, setHref.
  cbn [dataSocial dataSocialText href].
  destruct s as [p|], t as [q|]; cbv zeta;
    repeat (cbn [dataSocial dataSocialText href];
            match goal with
            | |- context [if truthy (socialMember o ?x) then _ else _] =>
                let T := fresh "T" in
                destruct (truthy (socialMember o x)) eqn:T;
                pose proof (getSocial_configured config o x E) as [? ?]
            end);
    cbn [dataSocial dataSocialText href];
    (split; [reflexivity|]); (split; [reflexivity|]);
    (split; [|split; [|split]]);
    try (intros ? [= <-]); try (intros ? [= <-] ?); try discriminate;
    try (intros; assumption);
    try (left; reflexivity);
    try (right; eexists; split; [left; reflexivity | symmetry; auto]; fail);
    try (right; eexists; split; [right; reflexivity | symmetry; auto]; fail);
    try (intros; symmetry; auto; fail);
    try (intros; exfalso; auto; fail);
    try (intros; congruence).
Qed.

(** X26. What [applySocialLinks] writes is what [getSocial] answers: a
    link keeps its attributes, and its target is either untouched or the
    answer of [getSocial] for one of its platforms; it is that answer
    whenever the answer is not the fallback "#" ([data-social-text] going
    before [data-social]). [getSocial] never answers with an empty value,
    and no link that had a target loses it. *)
Theorem social_links_follow_getSocial
    (config : option ConfigData) (links : list Link) :
  Forall2 (linked config) links (applySocialLinks config links)
  /\ (forall platform, truthy (getSocial config platform) = true)
  /\ (socialOf config = None -> applySocialLinks config links = links).
Proof.
  split; [|split].
  - unfold applySocialLinks. destruct (socialOf config) as [o|] eqn:E.
    + induction links as [|link links IH]; cbn [map]; constructor;
        [now apply setHref_linked | exact IH].
    + induction links as [|link links IH]; constructor; [|exact IH].
      unfold linked, getSocial. rewrite E.
      repeat split; auto; intros; congruence.
  - apply getSocial_truthy.
  - intros E. unfold applySocialLinks. now rewrite E.
Qed.

End SocialLinks.

(* ===================================================================== *)
(** * Page chrome: the active navigation link *)
(* ===================================================================== *)

Section NavigationFacts.

Import Navigation.

Lemma splitSlash_nonempty (s : string) : splitSlash s <> [].
Proof.
  induction s as [|c s IH]; cbn [splitSlash]; [discriminate|].
  destruct (Ascii.eqb c "/"); [discriminate|].
  destruct (splitSlash s); discriminate.
Qed.

Lemma splitSlash_slashFree (s : string) :
  Forall (fun piece => slashFree piece = true) (splitSlash s).
Proof.
  induction s as [|c s IH]; cbn [splitSlash].
  - repeat constructor.
  - destruct (Ascii.eqb c "/") eqn:E.
    + constructor; [reflexivity | exact IH].
    + destruct (splitSlash s) as [|piece pieces].
      * constructor; [cbn; now rewrite E | constructor].
      * inversion IH; subst. constructor; [cbn; now rewrite E | assumption].
Qed.

Lemma last_In {A} (l : list A) (d : A) : l <> [] -> In (List.last l d) l.
Proof.
  induction l as [|x l IH]; [congruence|]. intros _.
  destruct l as [|y l]; [now left|].
  right. apply IH. discriminate.
Qed.

Lemma currentPage_slashFree (pathname : string) :
  currentPage pathname <> "" /\ slashFree (currentPage pathname) = true.
Proof.
  unfold currentPage. cbv zeta.
  destruct (String.eqb_spec (List.last (splitSlash pathname) "") "") as [E|E].
  - split; [discriminate | reflexivity].
  - split; [exact E|].
    pose proof (splitSlash_slashFree pathname) as H.
    rewrite List.Forall_forall in H. apply H.
    apply last_In, splitSlash_nonempty.
Qed.

(** X27. The page name [initNavigation] compares with is never empty and
    holds no slash, so the clause for an empty page name never applies: a
    link is highlighted afterwards exactly when it already was or its
    [href] is the page name itself. No link loses the class [active], and
    a link whose [href] holds a slash is never given it. *)
Theorem initNavigation_highlights_exact_matches
    (pathname : string) (links : list NavLink) :
  let page := currentPage pathname in
  page <> ""
  /\ slashFree page = true
  /\ Forall2 (fun link link' =>
                href link' = href link
                /\ (active link' = true
                    <-> active link = true \/ href link = Some page)
                /\ (forall h, href link = Some h -> slashFree h = false ->
                      active link' = active link))
       links (initNavigation pathname links).
Proof.
  cbv zeta. destruct (currentPage_slashFree pathname) as [Hne Hsf].
  split; [exact Hne|]. split; [exact Hsf|].
  unfold initNavigation.
  induction links as [|link links IH]; cbn [map]; constructor; [|exact IH].
  unfold highlight. apply String.eqb_neq in Hne. rewrite Hne.
  destruct link as [[h|] a]; cbn [href active andb].
  - rewrite orb_false_r.
    destruct (String.eqb_spec h (currentPage pathname)) as [->|Hh];
      cbn [href active].
    + split; [reflexivity|]. split; [split; auto|].
      intros h [= <-] Hs. congruence.
    + split; [reflexivity|]. split; [|reflexivity].
      split; [auto | intros [H|[= H]]; [exact H | contradiction]].
  - split; [reflexivity|]. split; [|discriminate].
    split; [auto | intros [H|H]; [exact H | discriminate]].
Qed.

Lemma splitSlash_last_file (file : string) :
  slashFree file = true -> splitSlash file = [file].
Proof.
  induction file as [|c file IH]; cbn [slashFree splitSlash]; [reflexivity|].
  intros H. apply andb_prop in H as [Hc Hf].
  destruct (Ascii.eqb c "/"); [discriminate|]. now rewrite (IH Hf).
Qed.

Lemma splitSlash_last (dir file : string) :
  slashFree file = true ->
  List.last (splitSlash (dir +:+ "/" +:+ file)) "" = file.
Proof.
  intros Hf. induction dir as [|c dir IH].
  - change ("" +:+ "/" +:+ file) with (String "/" file).
    cbn [splitSlash]. rewrite Ascii.eqb_refl.
    rewrite (splitSlash_last_file file Hf). reflexivity.
  - change (String c dir +:+ "/" +:+ file) with (String c (dir +:+ "/" +:+ file)).
    cbn [splitSlash].
    destruct (Ascii.eqb c "/").
    + pose proof (splitSlash_nonempty (dir +:+ "/" +:+ file)) as Hne.
      destruct (splitSlash (dir +:+ "/" +:+ file)) as [|p ps] eqn:E;
        [congruence|]. exact IH.
    + destruct (splitSlash (dir +:+ "/" +:+ file)) as [|p ps] eqn:E.
      * now destruct (splitSlash_nonempty (dir +:+ "/" +:+ file)).
      * destruct ps as [|q qs]; [|exact IH].
        exfalso. clear IH.
        assert (forall d, length (splitSlash (d +:+ "/" +:+ file)) >= 2)%nat as Hlen.
        { clear. induction d as [|c' d IHd].
          - change ("" +:+ "/" +:+ file) with (String "/" file).
            cbn [splitSlash]. rewrite Ascii.eqb_refl.
            destruct (splitSlash file) eqn:E'; cbn [length]; [|lia].
            now destruct (splitSlash_nonempty file).
          - change (String c' d +:+ "/" +:+ file)
              with (String c' (d +:+ "/" +:+ file)).
            cbn [splitSlash]. destruct (Ascii.eqb c' "/").
            + cbn [length]. lia.
            + destruct (splitSlash (d +:+ "/" +:+ file)); cbn [length] in *; lia. }
        specialize (Hlen dir). rewrite E in Hlen. cbn in Hlen. lia.
Qed.

(** X28. The page name is the part of the path after its last slash: for
    a path that ends in a file name without a slash it is that name, and
    for a path that ends in a slash it is "index.html". *)
Theorem currentPage_is_last_segment (dir file : string) :
  slashFree file = true ->
  currentPage (dir +:+ "/" +:+ file)
  = (if String.eqb file "" then "index.html" else file).
Proof.
  intros Hf. unfold currentPage. cbv zeta. now rewrite (splitSlash_last dir file Hf).
Qed.

End NavigationFacts.

Lemma currentPage_is_last_segment_witness :
  Navigation.currentPage "/site/blog.html" = "blog.html"
  /\ Navigation.currentPage "/site/" = "index.html".
Proof.
  split.
  - apply (currentPage_is_last_segment "/site" "blog.html"). reflexivity.
  - reflexivity.
Defined.

(* ===================================================================== *)
(** * Research module: the abstract toggles *)
(* ===================================================================== *)

Section AbstractFacts.

Import ResearchAbstract.

Lemma clicks_labels (n : nat) (t : Toggle) :
  dataReadMore (clicks n t) = dataReadMore t
  /\ dataShowLess (clicks n t) = dataShowLess t.
Proof.
  induction n as [|n [IH1 IH2]]; [auto|]. unfold clicks in *. cbn. auto.
Qed.

Lemma clicks_expanded (n : nat) (t : Toggle) :
  expanded (clicks n t) = xorb (Nat.odd n) (expanded t).
Proof.
  induction n as [|n IH]; [reflexivity|].
  rewrite Nat.odd_succ, <- Nat.negb_odd.
  change (clicks (S n) t) with (click (clicks n t)). cbn [click expanded].
  rewrite IH. now destruct (Nat.odd n), (expanded t).
Qed.

(** X29. From the first click on, the button of an abstract names the
    action a further click performs: "show less" while the abstract is
    expanded, "read more" while it is collapsed, and the abstract is
    expanded after an odd number of clicks. The button never gets back the
    text it was created with, which is the label on a line of its own. *)
Theorem abstract_toggle_label (lang : string) (n : nat) :
  let t := clicks (S n) (created lang) in
  expanded t = Nat.even n
  /\ buttonText t = (if expanded t then showLessLabel lang else readMoreLabel lang)
  /\ buttonText t <> buttonText (created lang)
  /\ Utils.trim (buttonText (created lang)) = readMoreLabel lang.
Proof.
  cbv zeta.
  assert (expanded (clicks (S n) (created lang)) = Nat.even n) as He.
  { rewrite clicks_expanded, Nat.odd_succ. cbn. now destruct (Nat.even n). }
  assert (buttonText (clicks (S n) (created lang))
          = if expanded (clicks (S n) (created lang))
            then showLessLabel lang else readMoreLabel lang) as Ht.
  { change (clicks (S n) (created lang)) with (click (clicks n (created lang))).
    cbn [click buttonText expanded].
    destruct (clicks_labels n (created lang)) as [-> ->].
    now destruct (expanded (clicks n (created lang))). }
  split; [exact He|]. split; [exact Ht|]. split.
  - rewrite Ht. unfold showLessLabel, readMoreLabel, created. cbn [buttonText].
    destruct (expanded _), (String.eqb lang "pt"); discriminate.
  - unfold created, readMoreLabel. cbn [buttonText].
    destruct (String.eqb lang "pt"); reflexivity.
Qed.

End AbstractFacts.
